(** * External drift kriging: the [geokrig] pipeline of [Kriging.py]

    [geokrig(df, variable, iterations, model, drift1, drift2=None)] is an
    orchestration of three collaborators: a table library (pandas /
    geopandas), a geostatistics library (gstools) and numpy.  The embedding
    follows the function statement by statement.

    - Table cells are IEEE doubles ([float]); a missing value is NaN, which
      is what [isnull] tests.
    - The caller's table [df] is an object shared with the caller: it lives
      in the [World], next to the standard output and the interpreter's
      global random state.
    - Exceptions are a [result]; a raise keeps the world as it is at that
      point, as in Python.
    - The numerical kernels of the geostatistics library are the operations
      of the class [Backend]; the objects wrapped around them ([Krige],
      [CondSRF], with their stores of named fields) are modelled here. *)

From Stdlib Require Import ZArith List Floats.
From stdpp Require Import base option list gmap strings pretty.

Open Scope string_scope.

(** ** Exceptions *)

(** [KeyError], [ValueError], [TypeError] and [AttributeError] are the Python
    exceptions of the table operations and of the builtin [max].  The other
    four are the error kinds of the specification; [geokrig] has no [raise]
    statement, so only a collaborator can produce them. *)
Inductive exn :=
  | KeyError (key : string)
  | ValueError
  | TypeError
  | AttributeError
  | ConfigurationError
  | NumericError
  | FitError
  | SingularSystemError.

Inductive result (A : Type) :=
  | Ok (a : A)
  | Raise (e : exn).
Arguments Ok {A} a.
Arguments Raise {A} e.

#[export] Instance result_ret : MRet result := λ A a, Ok a.
#[export] Instance result_bind : MBind result := λ A B f r,
  match r with Ok a => f a | Raise e => Raise e end.

(** ** Geometry and tables *)

(** A centroid as the geometry library returns it: [.x] and [.y]. *)
Record Point := mkPoint { x : float; y : float }.

(** A polygon of the [geometry] column: [geokrig] reads nothing of it but
    its centroid. *)
Record Geometry := mkGeometry { centroid : Point }.

Inductive Series :=
  | FloatSeries (vals : list float)
  | GeoSeries (geoms : list Geometry).

(** A data frame: the length of its index and its columns by label. *)
Record DataFrame := mkDataFrame {
  index_len : nat;
  columns : gmap string Series
}.

(** Every column has one entry per row. *)
Definition series_len (s : Series) : nat :=
  match s with FloatSeries v => length v | GeoSeries g => length g end.

Definition df_wf (df : DataFrame) : Prop :=
  ∀ c s, columns df !! c = Some s → series_len s = index_len df.

(** [df[c]] *)
Definition getitem (df : DataFrame) (c : string) : result Series :=
  match columns df !! c with
  | Some s => Ok s
  | None => Raise (KeyError c)
  end.

(** [s.isnull()] *)
Definition isnull (s : Series) : list bool :=
  match s with
  | FloatSeries v => map PrimFloat.is_nan v
  | GeoSeries g => map (λ _, false) g
  end.

(** The mask of the rows with an observed (non-missing) value:
    [~s.isnull()] on a column of doubles. *)
Definition observed (t : list float) : list bool :=
  map negb (map PrimFloat.is_nan t).

(** [s.values], read as an array of doubles. *)
Definition values (s : Series) : result (list float) :=
  match s with
  | FloatSeries v => Ok v
  | GeoSeries _ => Raise TypeError
  end.

(** [s.geometry]: only a geometry column has it. *)
Definition geometry (s : Series) : result (list Geometry) :=
  match s with
  | GeoSeries g => Ok g
  | FloatSeries _ => Raise AttributeError
  end.

(** Selection of the entries where the mask holds. *)
Fixpoint mask_select {A : Type} (mask : list bool) (l : list A) : list A :=
  match mask, l with
  | b :: mask', a :: l' =>
      if b then a :: mask_select mask' l' else mask_select mask' l'
  | _, _ => []
  end.

(** The position, among the selected entries, of entry [k] of the source. *)
Fixpoint rank (mask : list bool) (k : nat) : nat :=
  match mask, k with
  | b :: mask', S k' => (if b then 1 else 0) + rank mask' k'
  | _, _ => 0
  end.

Definition series_select (mask : list bool) (s : Series) : Series :=
  match s with
  | FloatSeries v => FloatSeries (mask_select mask v)
  | GeoSeries g => GeoSeries (mask_select mask g)
  end.

(** [df[mask]]: a new frame (a copy), with the selected rows of every
    column.  [reset_index(drop=True, inplace=True)] on it renumbers the
    index of that copy, which a positional model does not see. *)
Definition df_select (mask : list bool) (df : DataFrame) : DataFrame :=
  {| index_len := length (filter (λ b, b = true) mask);
     columns := series_select mask <$> columns df |}.

(** [df[c] = arr] for an array: refused when the lengths differ, else the
    column [c] is set, replacing a column of that label if there is one. *)
Definition setitem (df : DataFrame) (c : string) (arr : list float)
  : result DataFrame :=
  if decide (length arr = index_len df)
  then Ok {| index_len := index_len df;
             columns := <[c := FloatSeries arr]> (columns df) |}
  else Raise ValueError.

(** ** Arrays *)

Inductive ndarray :=
  | Array1 (a : list float)
  | Array2 (rows : list (list float)).

(** [np.vstack((a, b))] of two one-dimensional arrays. *)
Definition vstack (a b : list float) : result ndarray :=
  if decide (length a = length b)
  then Ok (Array2 [a; b])
  else Raise ValueError.

(** The builtin [max] over a sequence: the first item, replaced by each
    later item that compares greater. *)
Definition py_max (l : list float) : result float :=
  match l with
  | [] => Raise ValueError
  | a :: l' => Ok (foldl (λ m v, if (m <? v)%float then v else m) a l')
  end.

(** [range(n)] *)
Definition range (n : Z) : list nat := seq 0 (Z.to_nat n).

(** [f"f{i}"] *)
Definition fname (i : nat) : string := "f" +:+ pretty i.

(** ** The result matrix *)

Record Matrix := mkMatrix {
  nrows : nat;
  ncols : nat;
  data : list (list float)   (* row by row *)
}.

(** [pd.DataFrame(rows)] of a list of arrays: one row per array, as many
    columns as the longest has, shorter rows filled with NaN. *)
Definition width (rows : list (list float)) : nat :=
  foldr (λ r m, Nat.max (length r) m) 0 rows.

Definition pd_DataFrame (rows : list (list float)) : Matrix :=
  {| nrows := length rows;
     ncols := width rows;
     data := map (λ r, map (λ j, nth j r nan) (seq 0 (width rows))) rows |}.

(** [m.T] *)
Definition transpose (m : Matrix) : Matrix :=
  {| nrows := ncols m;
     ncols := nrows m;
     data := map (λ j, map (λ r, nth j r nan) (data m)) (seq 0 (ncols m)) |}.

(** [m.reset_index(drop=True)]: the rows are renumbered from 0; the entries
    stay. *)
Definition reset_index (m : Matrix) : Matrix := m.

(** The entry of row [k] and column [i]. *)
Definition entry (m : Matrix) (k i : nat) : option float :=
  data m !! k ≫= λ r : list float, r !! i.

(** ** The geostatistics library *)

(** A position tuple of the library with [latlon=True]: [(lat, lon)], the
    latitudes first. *)
Record Pos := mkPos { pos_lat : list float; pos_lon : list float }.

(** What a kriging object is conditioned on. *)
Record Conditioning (CovModel : Type) := mkConditioning {
  cond_model : CovModel;
  cond_pos : Pos;
  cond_val : list float;
  cond_drift : ndarray
}.
Arguments mkConditioning {CovModel}.
Arguments cond_model {CovModel}.
Arguments cond_pos {CovModel}.
Arguments cond_val {CovModel}.
Arguments cond_drift {CovModel}.

(** The numerical kernels.  Each is a function of its arguments: the
    library draws its random numbers from generators seeded by the caller.
    - [LogNormal data]: [gs.normalizer.LogNormal(data)];
    - [vario_estimate pos field estimator latlon mesh_type normalizer]:
      the bin centers and the empirical variogram;
    - [new_model cls dim latlon]: [cls(dim=dim, latlon=latlon)];
    - [fit_variogram m x y nugget loss]: the model after
      [m.fit_variogram(x, y, nugget=nugget, loss=loss)];
    - [krige_setup]: what constructing [gs.krige.ExtDrift] checks and
      solves;
    - [krige_field c pos drift chunk_size]: kriging field and variance;
    - [krige_mean c pos drift]: the mean field ([only_mean=True]);
    - [cond_field c pos drift seed]: one conditioned random field;
    - [MasterRNG s] and [next_seed]: the master generator and one call
      [seed()], giving a sub-seed and the advanced generator. *)
Class Backend := {
  Normalizer : Type;
  ModelClass : Type;
  CovModel : Type;
  RNG : Type;
  nugget : CovModel → float;
  LogNormal : list float → result Normalizer;
  vario_estimate :
    Pos → list float → string → bool → string → Normalizer →
    result (list float * list float);
  new_model : ModelClass → nat → bool → result CovModel;
  fit_variogram :
    CovModel → list float → list float → bool → string → result CovModel;
  krige_setup : Conditioning CovModel → result unit;
  krige_field :
    Conditioning CovModel → Pos → ndarray → option nat →
    result (list float * list float);
  krige_mean : Conditioning CovModel → Pos → ndarray → result (list float);
  cond_field :
    Conditioning CovModel → Pos → ndarray → Z → result (list float);
  MasterRNG : Z → RNG;
  next_seed : RNG → Z * RNG
}.

(** [store[name]] of an object's named fields. *)
Definition field_getitem (store : gmap string (list float)) (name : string)
  : result (list float) :=
  match store !! name with
  | Some f => Ok f
  | None => Raise (KeyError name)
  end.

(** The position tuple set by an earlier call. *)
Definition stored_pos (p : option Pos) : result Pos :=
  match p with
  | Some pos => Ok pos
  | None => Raise ValueError
  end.

Section Pipeline.
Context `{backend : Backend}.

(** ** The library's objects *)

(** A kriging object: its conditioning, the position tuple of the last
    call, and the fields it stored by name. *)
Record Krige := mkKrige {
  krige_cond : Conditioning CovModel;
  krige_pos : option Pos;
  krige_store : gmap string (list float)
}.

(** [gs.krige.ExtDrift(model, cond_pos, cond_val, ext_drift)] *)
Definition ExtDrift (model : CovModel) (pos : Pos) (val : list float)
    (ext_drift : ndarray) : result Krige :=
  let c := mkConditioning model pos val ext_drift in
  _ ← krige_setup c;
  mret (mkKrige c None ∅).

(** [krig.unstructured(pos, ext_drift=..., chunk_size=...)]: the position
    tuple is kept, field and variance are stored under their default
    names. *)
Definition Krige_unstructured (krig : Krige) (pos : Pos) (ext_drift : ndarray)
    (chunk_size : nat) : result Krige :=
  '(f, v) ← krige_field (krige_cond krig) pos ext_drift (Some chunk_size);
  mret (mkKrige (krige_cond krig) (Some pos)
          (<["krige_var" := v]> (<["field" := f]> (krige_store krig)))).

(** [krig(return_var=True, store=name, ext_drift=...)]: the field goes
    under [name], the variance under its default name. *)
Definition Krige_call (krig : Krige) (name : string) (ext_drift : ndarray)
  : result Krige :=
  pos ← stored_pos (krige_pos krig);
  '(f, v) ← krige_field (krige_cond krig) pos ext_drift None;
  mret (mkKrige (krige_cond krig) (Some pos)
          (<["krige_var" := v]> (<[name := f]> (krige_store krig)))).

(** [krig(only_mean=True, store=name, ext_drift=...)] *)
Definition Krige_call_mean (krig : Krige) (name : string)
    (ext_drift : ndarray) : result Krige :=
  pos ← stored_pos (krige_pos krig);
  f ← krige_mean (krige_cond krig) pos ext_drift;
  mret (mkKrige (krige_cond krig) (Some pos) (<[name := f]> (krige_store krig))).

(** A conditioned random field generator on a kriging object. *)
Record CondSRF := mkCondSRF {
  srf_krige : Krige;
  srf_latlon : bool;
  srf_pos : option Pos;
  srf_store : gmap string (list float)
}.

(** [cond_srf.set_pos(pos, mesh_type)] *)
Definition set_pos (srf : CondSRF) (pos : Pos) (mesh_type : string) : CondSRF :=
  mkCondSRF (srf_krige srf) (srf_latlon srf) (Some pos) (srf_store srf).

(** [cond_srf(seed=s, store=[name, False, False], ext_drift=...)]: the
    field is stored under [name]; the raw field and the raw kriging field
    are not stored. *)
Definition CondSRF_call (srf : CondSRF) (s : Z) (name : string)
    (ext_drift : ndarray) : result CondSRF :=
  pos ← stored_pos (srf_pos srf);
  f ← cond_field (krige_cond (srf_krige srf)) pos ext_drift s;
  mret (mkCondSRF (srf_krige srf) (srf_latlon srf) (srf_pos srf)
          (<[name := f]> (srf_store srf))).

(** ** The world of one call *)

(** What [geokrig] writes to the standard output and to the figure. *)
Inductive event :=
  | print_bin_number (n : nat)
  | print_max_bin (d : float)
  | plot_vario (m : CovModel) (x_max : float) (bin_center vario : list float)
  | print_model (m : CovModel)
  | print_rule
  | print_iteration (i : nat).

(** [table] is the caller's data frame [df]; [np_random] is the global
    random state of the interpreter. *)
Record World := mkWorld {
  table : DataFrame;
  stdout : list event;
  np_random : Z
}.

Definition M (A : Type) : Type := World → World * result A.

#[export] Instance M_ret : MRet M := λ A a w, (w, Ok a).
#[export] Instance M_bind : MBind M := λ A B f m w,
  match m w with
  | (w', Ok a) => f a w'
  | (w', Raise e) => (w', Raise e)
  end.

Definition lift {A : Type} (r : result A) : M A := λ w, (w, r).

Definition get_df : M DataFrame := λ w, (w, Ok (table w)).

Definition put_df (df : DataFrame) : M unit :=
  λ w, (mkWorld df (stdout w) (np_random w), Ok ()).

Definition emit (e : event) : M unit :=
  λ w, (mkWorld (table w) (stdout w ++ [e])%list (np_random w), Ok ()).

(** A [for] loop over a list, threading the loop's variables. *)
Fixpoint for_each {S : Type} (body : S → nat → M S) (l : list nat) (s : S)
  : M S :=
  match l with
  | [] => mret s
  | i :: l' => s' ← body s i; for_each body l' s'
  end.

(** ** Lines 59-82: observations, centroids and drift arrays *)

Record Extracted := mkExtracted {
  lat : list float;
  lon : list float;
  int_data : list float;
  g_lat : list float;
  g_lon : list float;
  external_drift_data : ndarray;
  external_drift_at_abortion : ndarray
}.

Definition extract (df : DataFrame) (variable drift1 : string)
    (drift2 : option string) : result Extracted :=
  target ← getitem df variable;
  let intpoints := df_select (map negb (isnull target)) df in
  geo_i ← getitem intpoints "geometry" ≫= geometry;
  let lat := map (λ g, x (centroid g)) geo_i in
  let lon := map (λ g, y (centroid g)) geo_i in
  int_data ← getitem intpoints variable ≫= values;
  geo ← getitem df "geometry" ≫= geometry;
  let g_lat := map (λ g, x (centroid g)) geo in
  let g_lon := map (λ g, y (centroid g)) geo in
  external_drift_data1 ← getitem df drift1 ≫= values;
  match drift2 with
  | Some drift2 =>
      external_drift_data2 ← getitem df drift2 ≫= values;
      external_drift_data ← vstack external_drift_data1 external_drift_data2;
      external_drift_at_abortion1 ← getitem intpoints drift1 ≫= values;
      external_drift_at_abortion2 ← getitem intpoints drift2 ≫= values;
      external_drift_at_abortion ←
        vstack external_drift_at_abortion1 external_drift_at_abortion2;
      mret (mkExtracted lat lon int_data g_lat g_lon
              external_drift_data external_drift_at_abortion)
  | None =>
      external_drift_at_abortion ← getitem intpoints drift1 ≫= values;
      mret (mkExtracted lat lon int_data g_lat g_lon
              (Array1 external_drift_data1) (Array1 external_drift_at_abortion))
  end.

(** ** Lines 85-106: normalizer, empirical variogram, fitted model *)

Definition fit_covariance (e : Extracted) (model : ModelClass) : M CovModel :=
  normalizer ← lift (LogNormal (int_data e));
  '(bin_center, vario) ←
    lift (vario_estimate (mkPos (lat e) (lon e)) (int_data e)
            "cressie" true "unstructured" normalizer);
  emit (print_bin_number (length bin_center));;
  d ← lift (py_max bin_center);
  emit (print_max_bin d);;
  model ← lift (new_model model 2 true);
  model ← lift (fit_variogram model bin_center vario false "cauchy");
  x_max ← lift (py_max bin_center);
  emit (plot_vario model x_max bin_center vario);;
  emit (print_model model);;
  mret model.

(** ** Lines 109-118: external drift kriging *)

Definition krige (e : Extracted) (model : CovModel) : result Krige :=
  krig ← ExtDrift model (mkPos (lat e) (lon e)) (int_data e)
           (external_drift_at_abortion e);
  krig ← Krige_unstructured krig (mkPos (g_lat e) (g_lon e))
           (external_drift_data e) 100;
  krig ← Krige_call krig "krig" (external_drift_data e);
  Krige_call_mean krig "mean_field" (external_drift_data e).

(** ** Lines 121-135: conditional simulation *)

(** The variables of the loop: the master generator [seed], the generator
    object [cond_srf] and the dictionary [fields]. *)
Record LoopVars := mkLoopVars {
  seed : RNG;
  cond_srf : CondSRF;
  fields : gmap string (list float)
}.

Definition loop_body (ext_drift : ndarray) (v : LoopVars) (i : nat)
  : M LoopVars :=
  let '(s, seed') := next_seed (seed v) in
  srf ← lift (CondSRF_call (cond_srf v) s (fname i) ext_drift);
  f ← lift (field_getitem (srf_store srf) (fname i));
  emit print_rule;;
  emit (print_iteration i);;
  mret (mkLoopVars seed' srf (<["field_" +:+ pretty i := f]> (fields v))).

(** The first [n] sub-seeds that calls [seed()] draw from a master
    generator. *)
Fixpoint subseeds (r : RNG) (n : nat) : list Z :=
  match n with
  | 0 => []
  | S n' => (next_seed r).1 :: subseeds (next_seed r).2 n'
  end.

Definition simulate (e : Extracted) (krig : Krige) (iterations : Z)
  : M CondSRF :=
  let srf := mkCondSRF krig true None ∅ in
  let srf := set_pos srf (mkPos (g_lat e) (g_lon e)) "unstructured" in
  let rng := MasterRNG 20170519 in
  v ← for_each (loop_body (external_drift_data e)) (range iterations)
        (mkLoopVars rng srf ∅);
  mret (cond_srf v).

(** ** Lines 137-144: the outputs *)

Definition assemble (krig : Krige) (srf : CondSRF) (iterations : Z)
  : M Matrix :=
  fields ← lift (mapM (λ i, field_getitem (srf_store srf) (fname i))
                   (range iterations));
  k ← lift (field_getitem (krige_store krig) "krig");
  df ← get_df;
  df' ← lift (setitem df "cond_krig" k);
  put_df df';;
  let fields_df := pd_DataFrame fields in
  mret (reset_index (transpose fields_df)).

(** ** The entry point *)

Definition geokrig (variable : string) (iterations : Z) (model : ModelClass)
    (drift1 : string) (drift2 : option string) : M Matrix :=
  df ← get_df;
  e ← lift (extract df variable drift1 drift2);
  model ← fit_covariance e model;
  krig ← lift (krige e model);
  srf ← simulate e krig iterations;
  assemble krig srf iterations.

(** ** Vocabulary of the properties *)

(** The position tuple built from a geometry column: the centroids' [x] in
    the first slot, their [y] in the second (lines 63-64 and 68-69). *)
Definition positions (geo : list Geometry) : Pos :=
  mkPos (map (λ g, x (centroid g)) geo) (map (λ g, y (centroid g)) geo).

(** A computation that only writes to the standard output: its result does
    not depend on the world, and the table and the global random state stay
    as they are. *)
Definition logs_only {A} (m : M A) : Prop :=
  ∃ out r, ∀ w,
    m w = (mkWorld (table w) (stdout w ++ out)%list (np_random w), r).

(** A computation that reads nothing of the world but the table, and leaves
    the global random state as it is: from two worlds with the same table
    it gives the same result and the same table. *)
Definition table_only {A} (m : M A) : Prop :=
  ∀ w1 w2, table w1 = table w2 →
    (m w1).2 = (m w2).2 ∧
    table (m w1).1 = table (m w2).1 ∧
    np_random (m w1).1 = np_random w1.

(** Modelled from the spec: the conditional simulator of the geostatistics
    library, which is not in the sources, returns "a value-per-target-location
    vector" (section 4.6). *)
Definition field_per_position : Prop :=
  ∀ c pos d s f, cond_field c pos d s = Ok f → length f = length (pos_lat pos).

(** Modelled from the spec: the conditional simulator of the geostatistics
    library, which is not in the sources, "must reproduce observed values
    exactly at observation locations (strict conditioning)" (section 4.6):
    where a target position is the position of an observation, the field
    has the observed value. *)
Definition strict_conditioning : Prop :=
  ∀ c pos d s f, cond_field c pos d s = Ok f →
  ∀ j k a b v,
    pos_lat (cond_pos c) !! j = Some a → pos_lon (cond_pos c) !! j = Some b →
    cond_val c !! j = Some v →
    pos_lat pos !! k = Some a → pos_lon pos !! k = Some b →
    f !! k = Some v.

(** Modelled from the spec: the model classes and the fit of the
    geostatistics library, which are not in the sources, give "the nugget
    parameter constrained to exactly zero" (section 4.4) in the way the
    call of lines 99-100 asks for it: a model built without a nugget has
    nugget 0, and a fit with [nugget=False] does not fit the nugget. *)
Definition default_nugget : Prop :=
  ∀ cls dim ll m, new_model cls dim ll = Ok m → nugget m = 0%float.

Definition unfitted_nugget_kept : Prop :=
  ∀ m xs ys loss m', fit_variogram m xs ys false loss = Ok m' →
    nugget m' = nugget m.

(** Modelled from the spec: the log-normal normalizer of the geostatistics
    library, which is not in the sources, "fails with NumericError if any
    observed value is non-positive" (section 4.2), and only then. *)
Definition lognormal_domain : Prop :=
  ∀ data, LogNormal data = Raise NumericError ↔
          ∃ v, v ∈ data ∧ (v <=? 0)%float = true.

(** A call on a table that has the columns it names, of the right kinds. *)
Definition call_wf (df : DataFrame) (variable drift1 : string)
    (drift2 : option string) : Prop :=
  df_wf df ∧
  (∃ t, columns df !! variable = Some (FloatSeries t)) ∧
  (∃ geo, columns df !! "geometry" = Some (GeoSeries geo)) ∧
  (∃ c1, columns df !! drift1 = Some (FloatSeries c1)) ∧
  (∀ d, drift2 = Some d → ∃ c2, columns df !! d = Some (FloatSeries c2)).

(** ** Where an exception comes from *)

(** The exceptions of the table operations, of [np.vstack] and of [max]. *)
Definition python_exn (e : exn) : Prop :=
  match e with
  | KeyError _ | ValueError | TypeError | AttributeError => True
  | _ => False
  end.

(** [e] is raised by a kernel of the library other than the normalizer, on
    some arguments. *)
Definition raised_by_kernel (e : exn) : Prop :=
  (∃ pos f es ll mt nz, vario_estimate pos f es ll mt nz = Raise e) ∨
  (∃ cls dim ll, new_model cls dim ll = Raise e) ∨
  (∃ m xs ys ng loss, fit_variogram m xs ys ng loss = Raise e) ∨
  (∃ c, krige_setup c = Raise e) ∨
  (∃ c pos d ch, krige_field c pos d ch = Raise e) ∨
  (∃ c pos d, krige_mean c pos d = Raise e) ∨
  (∃ c pos d s, cond_field c pos d s = Raise e).

(** Modelled from the spec: [NumericError] is the error kind of the
    normalizer's domain violation (section 7); the other kernels of the
    library, which are not in the sources, do not raise it. *)
Definition numeric_error_of_normalizer : Prop :=
  ∀ e, raised_by_kernel e → e ≠ NumericError.

(** Raised by a table operation or by a kernel other than the normalizer. *)
Definition collaborator_exn (e : exn) : Prop :=
  python_exn e ∨ raised_by_kernel e.

Definition raises_in {A} (P : exn → Prop) (r : result A) : Prop :=
  ∀ e, r = Raise e → P e.

Definition M_raises_in {A} (P : exn → Prop) (m : M A) : Prop :=
  ∀ w w' e, m w = (w', Raise e) → P e.

End Pipeline.

(** ** A small backend and a small table, to run the pipeline *)

Module Toy.

(** A covariance model: variance, length scale and nugget. *)
Record Model := mkModel {
  m_var : float;
  m_len_scale : float;
  m_nugget : float
}.

Definition points (p : Pos) : list (float * float) :=
  zip (pos_lat p) (pos_lon p).

Definition same_point (a b : float * float) : bool :=
  PrimFloat.Leibniz.eqb a.1 b.1 && PrimFloat.Leibniz.eqb a.2 b.2.

Fixpoint has_dup (l : list (float * float)) : bool :=
  match l with
  | [] => false
  | p :: l' => existsb (same_point p) l' || has_dup l'
  end.

(** The value observed at a point, if it is an observation point. *)
Fixpoint observed_at (P : list (float * float)) (V : list float)
    (t : float * float) : option float :=
  match P, V with
  | p :: P', v :: V' => if same_point p t then Some v else observed_at P' V' t
  | _, _ => None
  end.

(** The first drift covariate. *)
Definition drift_row (d : ndarray) : list float :=
  match d with
  | Array1 a => a
  | Array2 rows => hd [] rows
  end.

Definition well_posed (c : Conditioning Model) (pos : Pos) (d : ndarray) : bool :=
  negb (has_dup (points (cond_pos c)))
  && bool_decide (length (pos_lat (cond_pos c)) = length (cond_val c))
  && bool_decide (length (pos_lon (cond_pos c)) = length (cond_val c))
  && bool_decide (length (pos_lat pos) = length (pos_lon pos))
  && bool_decide (length (drift_row d) = length (pos_lat pos)).

(** The observed value at an observation point; elsewhere the drift,
    shifted by [shift]. *)
Definition interpolate (c : Conditioning Model) (pos : Pos) (d : ndarray)
    (shift : float) : list float :=
  zip_with (λ t dv,
      default (dv + shift)%float
        (observed_at (points (cond_pos c)) (cond_val c) t))
    (points pos) (drift_row d).

Definition float_of_Z (z : Z) : float := PrimFloat.of_uint63 (Uint63.of_Z z).

#[local] Instance backend : Backend := {|
  Normalizer := unit;
  ModelClass := string;
  CovModel := Model;
  RNG := Z;
  nugget := m_nugget;
  LogNormal data :=
    if existsb (λ v, (v <=? 0)%float) data then Raise NumericError else Ok ();
  vario_estimate pos field estimator latlon mesh_type normalizer :=
    if has_dup (points pos) then Raise SingularSystemError
    else Ok ([1; 2; 3]%float, [0.5; 0.75; 0.875]%float);
  new_model cls dim latlon := Ok (mkModel 1 1 0);
  fit_variogram m xs ys fit_nugget loss :=
    match py_max ys with
    | Ok v => Ok (mkModel v 2 (if fit_nugget then 0.25%float else m_nugget m))
    | Raise _ => Raise FitError
    end;
  krige_setup c :=
    if has_dup (points (cond_pos c)) then Raise SingularSystemError else Ok ();
  krige_field c pos d chunk_size :=
    if well_posed c pos d
    then Ok (interpolate c pos d 0, map (λ _, 0%float) (pos_lat pos))
    else Raise SingularSystemError;
  krige_mean c pos d :=
    if well_posed c pos d then Ok (drift_row d) else Raise SingularSystemError;
  cond_field c pos d s :=
    if well_posed c pos d
    then Ok (interpolate c pos d (float_of_Z s))
    else Raise SingularSystemError;
  MasterRNG s := s;
  next_seed r := ((75 * r + 74) `mod` 65537, (75 * r + 74) `mod` 65537)%Z
|}.

Definition geom (a b : float) : Geometry := mkGeometry (mkPoint a b).

(** Three units; the second has no rate. *)
Definition counties : DataFrame :=
  {| index_len := 3;
     columns :=
       <["geometry" := GeoSeries [geom 10 50; geom 11 51; geom 12 52]]>
       (<["rate" := FloatSeries [2; nan; 4]%float]>
       (<["dist" := FloatSeries [1; 8; 3]%float]>
       (<["pov" := FloatSeries [0.5; 0.25; 0.125]%float]> ∅))) |}.

(** The same table after an earlier call left its column on it. *)
Definition counties_kriged : DataFrame :=
  {| index_len := 3;
     columns := <["cond_krig" := FloatSeries [7; 7; 7]%float]> (columns counties) |}.

(** The third unit has a rate that is not positive. *)
Definition counties_negative : DataFrame :=
  {| index_len := 3;
     columns := <["rate" := FloatSeries [2; nan; -1]%float]> (columns counties) |}.

(** What lines 59-82 extract from [counties] with both drift covariates. *)
Definition obs : Extracted :=
  {| lat := [10; 12]%float;
     lon := [50; 52]%float;
     int_data := [2; 4]%float;
     g_lat := [10; 11; 12]%float;
     g_lon := [50; 51; 52]%float;
     external_drift_data := Array2 [[1; 8; 3]; [0.5; 0.25; 0.125]]%float;
     external_drift_at_abortion := Array2 [[1; 3]; [0.5; 0.125]]%float |}.

Definition world (df : DataFrame) : World := mkWorld df [] 0.

(** A call on a table, with the first drift covariate ["dist"]. *)
Definition run (variable : string) (iterations : Z) (drift2 : option string)
    (df : DataFrame) : World * result Matrix :=
  geokrig variable iterations "Matern" "dist" drift2 (world df).

End Toy.

(** ** More vocabulary: diagnostics, and variants of the small backend *)

Section Diagnostics.
Context `{backend : Backend}.

(** What lines 95-106 write, for bins [bin_center], variogram [vario], the
    largest bin [d] and the fitted model [m]. *)
Definition fit_lines (bin_center vario : list float) (d : float) (m : CovModel)
  : list event :=
  [print_bin_number (length bin_center); print_max_bin d;
   plot_vario m d bin_center vario; print_model m].

(** What lines 134-135 write over the iterations [l]. *)
Definition iteration_lines (l : list nat) : list event :=
  flat_map (λ i, [print_rule; print_iteration i]) l.

(** Two tables agree on what a call reads: the number of rows and the
    columns it names. *)
Definition same_inputs (df1 df2 : DataFrame) (variable drift1 : string)
    (drift2 : option string) : Prop :=
  index_len df1 = index_len df2 ∧
  columns df1 !! variable = columns df2 !! variable ∧
  columns df1 !! "geometry" = columns df2 !! "geometry" ∧
  columns df1 !! drift1 = columns df2 !! drift1 ∧
  (∀ d, drift2 = Some d → columns df1 !! d = columns df2 !! d).

End Diagnostics.

Module ToyVariants.

(** The small backend with another variogram estimate and, if [fit_error]
    is given, a fit that fails with it. *)
Definition with_kernels (vario : result (list float * list float))
    (fit_error : option exn) : Backend :=
  {| Normalizer := unit;
     ModelClass := string;
     CovModel := Toy.Model;
     RNG := Z;
     nugget := Toy.m_nugget;
     LogNormal := @LogNormal Toy.backend;
     vario_estimate pos field estimator latlon mesh_type normalizer := vario;
     new_model := @new_model Toy.backend;
     fit_variogram m xs ys fit_nugget loss :=
       match fit_error with
       | Some e => Raise e
       | None => @fit_variogram Toy.backend m xs ys fit_nugget loss
       end;
     krige_setup := @krige_setup Toy.backend;
     krige_field := @krige_field Toy.backend;
     krige_mean := @krige_mean Toy.backend;
     cond_field := @cond_field Toy.backend;
     MasterRNG := @MasterRNG Toy.backend;
     next_seed := @next_seed Toy.backend |}.

(** An estimator that finds no bin. *)
Definition no_bins : Backend := with_kernels (Ok ([], [])) None.

(** A fit that does not converge. *)
Definition failing_fit : Backend :=
  with_kernels (Ok ([1; 2; 3]%float, [0.5; 0.75; 0.875]%float)) (Some FitError).

(** Every unit of [counties] has a rate. *)
Definition counties_full : DataFrame :=
  {| index_len := 3;
     columns := <["rate" := FloatSeries [2; 3; 4]%float]> (columns Toy.counties) |}.

(** No unit of [counties] has a rate. *)
Definition counties_empty : DataFrame :=
  {| index_len := 3;
     columns := <["rate" := FloatSeries [nan; nan; nan]%float]>
                  (columns Toy.counties) |}.

(** [counties] with a column the call does not name. *)
Definition counties_more : DataFrame :=
  {| index_len := 3;
     columns := <["name" := FloatSeries [0; 0; 0]%float]> (columns Toy.counties) |}.

(** [counties] without its geometry column. *)
Definition counties_flat : DataFrame :=
  {| index_len := 3; columns := delete "geometry" (columns Toy.counties) |}.

(** The small backend with a simulation that fails on the seed [bad]. *)
Definition failing_at (bad : Z) : Backend :=
  {| Normalizer := unit;
     ModelClass := string;
     CovModel := Toy.Model;
     RNG := Z;
     nugget := Toy.m_nugget;
     LogNormal := @LogNormal Toy.backend;
     vario_estimate := @vario_estimate Toy.backend;
     new_model := @new_model Toy.backend;
     fit_variogram := @fit_variogram Toy.backend;
     krige_setup := @krige_setup Toy.backend;
     krige_field := @krige_field Toy.backend;
     krige_mean := @krige_mean Toy.backend;
     cond_field c pos d s :=
       if bool_decide (s = bad) then Raise SingularSystemError
       else @cond_field Toy.backend c pos d s;
     MasterRNG := @MasterRNG Toy.backend;
     next_seed := @next_seed Toy.backend |}.

(** The start of a call, for a backend [b]. *)
Definition world (b : Backend) (df : DataFrame) : @World b :=
  @mkWorld b df [] 0.

(** The kriging object of [counties], for the backend that fails at a seed. *)
Definition krig_counties (bad : Z) : @Krige (failing_at bad) :=
  @mkKrige (failing_at bad)
    (mkConditioning (Toy.mkModel 0.875 2 0)
       (mkPos [10; 12]%float [50; 52]%float) [2; 4]%float
       (Array2 [[1; 3]; [0.5; 0.125]]%float))
    None ∅.

End ToyVariants.

(** * Properties *)

Section Properties.
Context `{backend : Backend}.

(** ** The two monads *)

Lemma result_bind_Ok {A B} (r : result A) (f : A → result B) b :
  r ≫= f = Ok b → ∃ a, r = Ok a ∧ f a = Ok b.
Proof. destruct r as [a|e]; [eauto | discriminate]. Qed.

Lemma result_bind_Raise {A B} (r : result A) (f : A → result B) e :
  r ≫= f = Raise e → r = Raise e ∨ ∃ a, r = Ok a ∧ f a = Raise e.
Proof.
  destruct r as [a|e']; intros H; [eauto | left; simpl in H; congruence].
Qed.

Lemma M_bind_Ok {A B} (m : M A) (f : A → M B) w w' b :
  (m ≫= f) w = (w', Ok b) → ∃ a w1, m w = (w1, Ok a) ∧ f a w1 = (w', Ok b).
Proof.
  unfold mbind, M_bind. destruct (m w) as [w1 [a|e]]; [eauto | discriminate].
Qed.

Lemma M_bind_Raise {A B} (m : M A) (f : A → M B) w w' e :
  (m ≫= f) w = (w', Raise e) →
  m w = (w', Raise e) ∨ ∃ a w1, m w = (w1, Ok a) ∧ f a w1 = (w', Raise e).
Proof.
  unfold mbind, M_bind.
  destruct (m w) as [w1 [a|e']]; intros H; [eauto | left; congruence].
Qed.

Lemma world_eta (w : World) : mkWorld (table w) (stdout w) (np_random w) = w.
Proof. destruct w; reflexivity. Qed.

Lemma logs_only_lift {A} (r : result A) : logs_only (lift r).
Proof.
  exists [], r. intros w. unfold lift. rewrite app_nil_r, world_eta. reflexivity.
Qed.

Lemma logs_only_ret {A} (a : A) : logs_only (mret a : M A).
Proof. apply (logs_only_lift (Ok a)). Qed.

Lemma logs_only_emit ev : logs_only (emit ev).
Proof. exists [ev], (Ok ()). reflexivity. Qed.

Lemma logs_only_bind {A B} (m : M A) (f : A → M B) :
  logs_only m → (∀ a, logs_only (f a)) → logs_only (m ≫= f).
Proof.
  intros (out & r & Hm) Hf. destruct r as [a|e].
  - destruct (Hf a) as (out' & r' & Hfa). exists (out ++ out')%list, r'.
    intros w. unfold mbind, M_bind. rewrite Hm, Hfa. simpl.
    rewrite <- app_assoc. reflexivity.
  - exists out, (Raise e). intros w. unfold mbind, M_bind. rewrite Hm.
    reflexivity.
Qed.

Lemma logs_only_for_each {S} (body : S → nat → M S) l :
  (∀ s i, logs_only (body s i)) → ∀ s, logs_only (for_each body l s).
Proof.
  intros Hb. induction l as [|i l IH]; intros s; simpl.
  - apply logs_only_ret.
  - apply logs_only_bind; [apply Hb | apply IH].
Qed.

Lemma logs_only_frame {A} (m : M A) w w' r :
  logs_only m → m w = (w', r) →
  table w' = table w ∧ np_random w' = np_random w.
Proof.
  intros (out & r' & Hm) Hw. rewrite Hm in Hw. injection Hw as <- _. auto.
Qed.

Ltac logs :=
  repeat first
    [ apply logs_only_bind; [| intros ?]
    | apply logs_only_lift | apply logs_only_emit | apply logs_only_ret
    | match goal with |- logs_only (let '(_, _) := ?p in _) => destruct p end
    | match goal with |- logs_only (match ?p with _ => _ end) => destruct p end ].

Lemma fit_covariance_logs e model : logs_only (fit_covariance e model).
Proof. unfold fit_covariance. logs. Qed.

Lemma loop_body_logs d v i : logs_only (loop_body d v i).
Proof. unfold loop_body. logs. Qed.

Lemma simulate_logs e krig n : logs_only (simulate e krig n).
Proof.
  unfold simulate. apply logs_only_bind.
  - apply logs_only_for_each. intros; apply loop_body_logs.
  - intros; apply logs_only_ret.
Qed.

(** ** Row selection *)

Lemma mask_select_length {A B} (mask : list bool) (l : list A) (l' : list B) :
  length l = length l' →
  length (mask_select mask l) = length (mask_select mask l').
Proof.
  revert l l'. induction mask as [|b mask IH]; intros [|a l] [|a' l'] Hlen;
    simpl in *; try discriminate; try reflexivity.
  injection Hlen as Hlen. destruct b; simpl; auto.
Qed.

Lemma mask_select_lookup {A} (mask : list bool) (l : list A) k a :
  mask !! k = Some true → l !! k = Some a →
  mask_select mask l !! rank mask k = Some a.
Proof.
  revert l k. induction mask as [|b mask IH]; intros [|a' l] [|k] Hm Hl;
    simpl in *; try discriminate.
  - injection Hm as ->. assumption.
  - destruct b; simpl; auto.
Qed.

Lemma mask_select_elem_of {A} (mask : list bool) (l : list A) a :
  a ∈ mask_select mask l → ∃ k, mask !! k = Some true ∧ l !! k = Some a.
Proof.
  revert l. induction mask as [|b mask IH]; intros [|a' l] Hin; simpl in *;
    try (apply elem_of_nil in Hin; contradiction).
  destruct b.
  - apply elem_of_cons in Hin as [->|Hin].
    + exists 0. auto.
    + destruct (IH _ Hin) as (k & ? & ?). exists (S k). auto.
  - destruct (IH _ Hin) as (k & ? & ?). exists (S k). auto.
Qed.

Lemma getitem_select mask df c :
  getitem (df_select mask df) c =
  match columns df !! c with
  | Some s => Ok (series_select mask s)
  | None => Raise (KeyError c)
  end.
Proof.
  unfold getitem, df_select. simpl. rewrite lookup_fmap.
  destruct (columns df !! c); reflexivity.
Qed.

(** ** What the extraction returns *)

Lemma getitem_values df c v :
  getitem df c ≫= values = Ok v ↔ columns df !! c = Some (FloatSeries v).
Proof.
  unfold getitem. destruct (columns df !! c) as [[v'|g]|]; simpl;
    split; intros H; try discriminate; congruence.
Qed.

Lemma getitem_geometry df c g :
  getitem df c ≫= geometry = Ok g ↔ columns df !! c = Some (GeoSeries g).
Proof.
  unfold getitem. destruct (columns df !! c) as [[v'|g']|]; simpl;
    split; intros H; try discriminate; congruence.
Qed.

Lemma getitem_select_values mask df c v :
  getitem (df_select mask df) c ≫= values = Ok v ↔
  ∃ v0, columns df !! c = Some (FloatSeries v0) ∧ v = mask_select mask v0.
Proof.
  rewrite getitem_select. destruct (columns df !! c) as [[v'|g]|]; simpl;
    split; try discriminate.
  - intros [= <-]. eauto.
  - intros (v0 & [= <-] & ->). reflexivity.
  - intros (v0 & [=] & _).
  - intros (v0 & [=] & _).
Qed.

Lemma getitem_select_geometry mask df c g :
  getitem (df_select mask df) c ≫= geometry = Ok g ↔
  ∃ g0, columns df !! c = Some (GeoSeries g0) ∧ g = mask_select mask g0.
Proof.
  rewrite getitem_select. destruct (columns df !! c) as [[v'|g']|]; simpl;
    split; try discriminate.
  - intros (v0 & [=] & _).
  - intros [= <-]. eauto.
  - intros (v0 & [= <-] & ->). reflexivity.
  - intros (v0 & [=] & _).
Qed.

Tactic Notation "bind_ok" hyp(H) "as" ident(a) ident(E) :=
  apply result_bind_Ok in H as (a & E & H).

Lemma extract_Ok df variable drift1 drift2 e :
  extract df variable drift1 drift2 = Ok e →
  ∃ t geo c1,
    columns df !! variable = Some (FloatSeries t) ∧
    columns df !! "geometry" = Some (GeoSeries geo) ∧
    columns df !! drift1 = Some (FloatSeries c1) ∧
    lat e = map (λ g, x (centroid g)) (mask_select (observed t) geo) ∧
    lon e = map (λ g, y (centroid g)) (mask_select (observed t) geo) ∧
    int_data e = mask_select (observed t) t ∧
    g_lat e = map (λ g, x (centroid g)) geo ∧
    g_lon e = map (λ g, y (centroid g)) geo ∧
    match drift2 with
    | None =>
        external_drift_data e = Array1 c1 ∧
        external_drift_at_abortion e = Array1 (mask_select (observed t) c1)
    | Some drift2 => ∃ c2,
        columns df !! drift2 = Some (FloatSeries c2) ∧
        length c1 = length c2 ∧
        external_drift_data e = Array2 [c1; c2] ∧
        external_drift_at_abortion e =
          Array2 [mask_select (observed t) c1; mask_select (observed t) c2]
    end.
Proof.
  unfold extract. intros H.
  bind_ok H as target E. unfold getitem in E.
  destruct (columns df !! variable) as [target'|] eqn:Hv; [|discriminate].
  injection E as <-.
  bind_ok H as geo_i E. apply getitem_select_geometry in E as (geo & Hg & ->).
  bind_ok H as t_i E. apply getitem_select_values in E as (t & Ht & ->).
  assert (target' = FloatSeries t) as -> by congruence. clear Ht.
  bind_ok H as geo' E. apply getitem_geometry in E.
  assert (geo' = geo) as -> by congruence. clear E.
  bind_ok H as c1 H1. apply getitem_values in H1.
  exists t, geo, c1. destruct drift2 as [drift2|].
  - bind_ok H as c2 H2. apply getitem_values in H2.
    bind_ok H as d E. unfold vstack in E.
    destruct (decide (length c1 = length c2)); [|discriminate].
    injection E as <-.
    bind_ok H as c1i E. apply getitem_select_values in E as (c1' & Hc1 & ->).
    assert (c1' = c1) as -> by congruence.
    bind_ok H as c2i E. apply getitem_select_values in E as (c2' & Hc2 & ->).
    assert (c2' = c2) as -> by congruence.
    bind_ok H as di E. unfold vstack in E. destruct (decide _); [|discriminate].
    injection E as <-. injection H as <-. simpl.
    repeat split; eauto.
  - bind_ok H as c1i E. apply getitem_select_values in E as (c1' & Hc1 & ->).
    assert (c1' = c1) as -> by congruence.
    injection H as <-. simpl. repeat split; eauto.
Qed.
(** ** Kriging *)

Lemma krige_Ok e cm krig :
  krige e cm = Ok krig →
  krige_cond krig =
    mkConditioning cm (mkPos (lat e) (lon e)) (int_data e)
      (external_drift_at_abortion e) ∧
  ∃ kf v,
    krige_field (krige_cond krig) (mkPos (g_lat e) (g_lon e))
      (external_drift_data e) None = Ok (kf, v) ∧
    krige_store krig !! "krig" = Some kf.
Proof.
  unfold krige. intros H.
  bind_ok H as k0 E0. unfold ExtDrift in E0.
  bind_ok E0 as u Eu. injection E0 as <-.
  bind_ok H as k1 E1. unfold Krige_unstructured in E1. simpl in E1.
  bind_ok E1 as fv Efv. destruct fv as [f1 v1]. injection E1 as <-.
  bind_ok H as k2 E2. unfold Krige_call in E2. simpl in E2.
  bind_ok E2 as fv Efv2. destruct fv as [f2 v2]. injection E2 as <-.
  unfold Krige_call_mean in H. simpl in H.
  bind_ok H as fm Efm. injection H as <-. simpl.
  split; [reflexivity|]. exists f2, v2. split; [assumption|].
  rewrite lookup_insert_ne by done. rewrite lookup_insert_ne by done.
  apply lookup_insert_eq.
Qed.

(** ** The simulation loop *)

Lemma lift_inv {A} (r r' : result A) w w' :
  lift r w = (w', r') → w' = w ∧ r = r'.
Proof. unfold lift. intros [= <- <-]. auto. Qed.

Tactic Notation "mbind_ok" hyp(H) "as" ident(a) ident(w) ident(E) :=
  apply M_bind_Ok in H as (a & w & E & H).

Lemma fname_inj i j : fname i = fname j → i = j.
Proof.
  unfold fname. intros H. apply (inj (String.append "f")) in H.
  apply pretty_nat_inj in H. exact H.
Qed.

Lemma loop_body_Ok d v i w w' v' :
  loop_body d v i w = (w', Ok v') →
  ∃ pos f,
    srf_pos (cond_srf v) = Some pos ∧
    cond_field (krige_cond (srf_krige (cond_srf v))) pos d
      (next_seed (seed v)).1 = Ok f ∧
    seed v' = (next_seed (seed v)).2 ∧
    srf_krige (cond_srf v') = srf_krige (cond_srf v) ∧
    srf_pos (cond_srf v') = srf_pos (cond_srf v) ∧
    srf_store (cond_srf v') = <[fname i := f]> (srf_store (cond_srf v)).
Proof.
  unfold loop_body. destruct (next_seed (seed v)) as [s r]. intros H.
  mbind_ok H as srf w1 E. apply lift_inv in E as [-> E].
  unfold CondSRF_call in E. bind_ok E as pos Ep. bind_ok E as f Ef.
  injection E as <-.
  mbind_ok H as f' w2 E. apply lift_inv in E as [-> E]. clear E.
  mbind_ok H as u1 w3 E1. mbind_ok H as u2 w4 E2.
  injection H as _ <-. simpl.
  unfold stored_pos in Ep. destruct (srf_pos (cond_srf v)) as [p|];
    [|discriminate]. injection Ep as ->.
  exists pos, f. repeat split; auto.
Qed.

Lemma for_each_loop_body d n : ∀ a v w w' v',
  for_each (loop_body d) (seq a n) v w = (w', Ok v') →
  srf_krige (cond_srf v') = srf_krige (cond_srf v) ∧
  srf_pos (cond_srf v') = srf_pos (cond_srf v) ∧
  (∀ name, (∀ j, j < n → name ≠ fname (a + j)) →
     srf_store (cond_srf v') !! name = srf_store (cond_srf v) !! name) ∧
  ∃ flds,
    Forall2 (λ s f, ∃ pos,
        srf_pos (cond_srf v) = Some pos ∧
        cond_field (krige_cond (srf_krige (cond_srf v))) pos d s = Ok f)
      (subseeds (seed v) n) flds ∧
    ∀ j f, flds !! j = Some f →
      srf_store (cond_srf v') !! fname (a + j) = Some f.
Proof.
  induction n as [|n IH]; intros a v w w' v' H; simpl in H.
  - injection H as _ <-. repeat split; auto. exists []. split; [constructor|].
    intros j f Hj. discriminate.
  - mbind_ok H as v1 w1 E.
    apply loop_body_Ok in E as (pos & f & Hpos & Hf & Hseed & Hk & Hp & Hst).
    apply IH in H as (Hk' & Hp' & Hother & flds & Hflds & Hlook).
    split; [congruence|]. split; [congruence|]. split.
    + intros name Hname. rewrite Hother.
      * rewrite Hst. apply lookup_insert_ne. specialize (Hname 0).
        rewrite Nat.add_0_r in Hname. intros Heq. apply Hname; [lia | auto].
      * intros j Hj. replace (S a + j) with (a + S j) by lia.
        apply Hname. lia.
    + exists (f :: flds). split.
      * simpl. constructor; [eauto|]. rewrite <- Hseed.
        eapply Forall2_impl; [exact Hflds|]. simpl.
        intros s f' (pos' & Hpos' & Hf'). exists pos'. split; congruence.
      * intros [|j] f' Hj; simpl in Hj.
        -- injection Hj as <-. rewrite Nat.add_0_r. rewrite Hother.
           ++ rewrite Hst. apply lookup_insert_eq.
           ++ intros j Hj Heq. apply fname_inj in Heq. lia.
        -- replace (a + S j) with (S a + j) by lia. auto.
Qed.

Lemma mapM_getitem store : ∀ n a (flds : list (list float)),
  length flds = n →
  (∀ j f, flds !! j = Some f → store !! fname (a + j) = Some f) →
  mapM (λ i, field_getitem store (fname i)) (seq a n) = Ok flds.
Proof.
  induction n as [|n IH]; intros a [|f flds] Hlen Hlook;
    simpl in *; try discriminate; try reflexivity.
  pose proof (Hlook 0 f eq_refl) as H0. rewrite Nat.add_0_r in H0.
  assert (field_getitem store (fname a) = Ok f) as ->
    by (unfold field_getitem; rewrite H0; reflexivity).
  simpl.
  rewrite (IH (S a) flds); [reflexivity | lia |].
  intros j f' Hj. replace (S a + j) with (a + S j) by lia. apply Hlook. exact Hj.
Qed.

Lemma subseeds_length r n : length (subseeds r n) = n.
Proof. revert r. induction n; intros r; simpl; auto. Qed.

Lemma simulate_Ok e krig n w w' srf :
  simulate e krig n w = (w', Ok srf) →
  ∃ flds,
    Forall2 (λ s f,
        cond_field (krige_cond krig) (mkPos (g_lat e) (g_lon e))
          (external_drift_data e) s = Ok f)
      (subseeds (MasterRNG 20170519) (Z.to_nat n)) flds ∧
    mapM (λ i, field_getitem (srf_store srf) (fname i)) (range n) = Ok flds.
Proof.
  unfold simulate, range. intros H. mbind_ok H as v w1 E.
  injection H as _ <-.
  apply for_each_loop_body in E as (_ & _ & _ & flds & Hflds & Hlook).
  simpl in Hflds. exists flds. split.
  - eapply Forall2_impl; [exact Hflds|]. simpl.
    intros s f (pos & [= <-] & Hf). exact Hf.
  - apply mapM_getitem; [|exact Hlook].
    apply Forall2_length in Hflds. rewrite subseeds_length in Hflds. auto.
Qed.
(** ** The outputs *)

Lemma assemble_Ok krig srf n w w' m :
  assemble krig srf n w = (w', Ok m) →
  ∃ flds kf,
    mapM (λ i, field_getitem (srf_store srf) (fname i)) (range n) = Ok flds ∧
    krige_store krig !! "krig" = Some kf ∧
    length kf = index_len (table w) ∧
    w' = mkWorld
           (mkDataFrame (index_len (table w))
              (<["cond_krig" := FloatSeries kf]> (columns (table w))))
           (stdout w) (np_random w) ∧
    m = transpose (pd_DataFrame flds).
Proof.
  unfold assemble, mbind, M_bind, lift, get_df, put_df, field_getitem, setitem.
  destruct (mapM _ (range n)) as [flds|]; [|discriminate].
  destruct (krige_store krig !! "krig") as [kf|]; [|discriminate].
  destruct (decide (length kf = index_len (table w))); [|discriminate].
  simpl. intros [= <- <-]. exists flds, kf. auto.
Qed.

Lemma field_getitem_Raise store name e :
  field_getitem store name = Raise e → python_exn e.
Proof.
  unfold field_getitem. destruct (store !! name); intros [= <-]. exact I.
Qed.

Lemma mapM_getitem_Raise store l e :
  mapM (λ i, field_getitem store (fname i)) l = Raise e → python_exn e.
Proof.
  induction l as [|i l IH]; simpl; intros H; [discriminate|].
  apply result_bind_Raise in H as [H|(f & _ & H)].
  - eapply field_getitem_Raise, H.
  - apply result_bind_Raise in H as [H|(k & _ & H)]; [auto | discriminate].
Qed.

Lemma assemble_Raise krig srf n w w' e :
  assemble krig srf n w = (w', Raise e) → w' = w ∧ python_exn e.
Proof.
  unfold assemble, mbind, M_bind, lift, get_df, put_df, setitem.
  destruct (mapM _ (range n)) as [flds|e1] eqn:Hm.
  - destruct (field_getitem (krige_store krig) "krig") as [kf|e1] eqn:Hk.
    + destruct (decide (length kf = index_len (table w))); simpl;
        [discriminate|]. intros [= <- <-]. simpl. auto.
    + intros [= <- <-]. split; [reflexivity|].
      eapply field_getitem_Raise, Hk.
  - intros [= <- <-]. split; [reflexivity|].
    eapply mapM_getitem_Raise, Hm.
Qed.

(** ** The stages of a call *)

Lemma geokrig_inv variable n model drift1 drift2 w w' r :
  geokrig variable n model drift1 drift2 w = (w', r) →
  (∃ e, extract (table w) variable drift1 drift2 = Raise e ∧
        r = Raise e ∧ w' = w) ∨
  ∃ ex, extract (table w) variable drift1 drift2 = Ok ex ∧
    ((∃ e, fit_covariance ex model w = (w', Raise e) ∧ r = Raise e) ∨
     ∃ w1 cm, fit_covariance ex model w = (w1, Ok cm) ∧
       ((∃ e, krige ex cm = Raise e ∧ r = Raise e ∧ w' = w1) ∨
        ∃ krig, krige ex cm = Ok krig ∧
          ((∃ e, simulate ex krig n w1 = (w', Raise e) ∧ r = Raise e) ∨
           ∃ w2 srf, simulate ex krig n w1 = (w2, Ok srf) ∧
             assemble krig srf n w2 = (w', r)))).
Proof.
  unfold geokrig, mbind at 1 2 3 4 5, M_bind, lift, get_df.
  destruct (extract _ _ _ _) as [ex|e]; [|intros [= <- <-]; eauto].
  intros H. right. exists ex. split; [reflexivity|].
  destruct (fit_covariance ex model w) as [w1 [cm|e]];
    [|injection H as <- <-; eauto].
  right. exists w1, cm. split; [reflexivity|].
  destruct (krige ex cm) as [krig|e]; [|injection H as <- <-; eauto].
  right. exists krig. split; [reflexivity|].
  destruct (simulate ex krig n w1) as [w2 [srf|e]];
    [|injection H as <- <-; eauto].
  right. eauto.
Qed.
(** ** Computations that read only the table *)

Lemma logs_only_table_only {A} (m : M A) : logs_only m → table_only m.
Proof.
  intros (out & r & Hm) w1 w2 Ht. rewrite !Hm. simpl. auto.
Qed.

Lemma table_only_get_df : table_only get_df.
Proof. intros w1 w2 Ht. unfold get_df. simpl. rewrite Ht. auto. Qed.

Lemma table_only_put_df df : table_only (put_df df).
Proof. intros w1 w2 Ht. unfold put_df. simpl. auto. Qed.

Lemma table_only_bind {A B} (m : M A) (f : A → M B) :
  table_only m → (∀ a, table_only (f a)) → table_only (m ≫= f).
Proof.
  intros Hm Hf w1 w2 Ht. destruct (Hm w1 w2 Ht) as (Hr & Ht' & Hn).
  unfold mbind, M_bind.
  destruct (m w1) as [w1' r1], (m w2) as [w2' r2]. simpl in *. subst r2.
  destruct r1 as [a|e]; simpl; [|auto].
  destruct (Hf a w1' w2' Ht') as (? & ? & ?). repeat split; congruence.
Qed.

Lemma geokrig_table_only variable n model drift1 drift2 :
  table_only (geokrig variable n model drift1 drift2).
Proof.
  unfold geokrig.
  apply table_only_bind; [apply table_only_get_df | intros df].
  apply table_only_bind;
    [apply logs_only_table_only, logs_only_lift | intros ex].
  apply table_only_bind;
    [apply logs_only_table_only, fit_covariance_logs | intros cm].
  apply table_only_bind;
    [apply logs_only_table_only, logs_only_lift | intros krig].
  apply table_only_bind;
    [apply logs_only_table_only, simulate_logs | intros srf].
  unfold assemble.
  apply table_only_bind;
    [apply logs_only_table_only, logs_only_lift | intros flds].
  apply table_only_bind;
    [apply logs_only_table_only, logs_only_lift | intros kf].
  apply table_only_bind; [apply table_only_get_df | intros df0].
  apply table_only_bind;
    [apply logs_only_table_only, logs_only_lift | intros df1].
  apply table_only_bind; [apply table_only_put_df | intros _].
  apply logs_only_table_only, logs_only_ret.
Qed.

(** ** The matrix of the fields *)

Lemma width_ge rows i (f : list float) :
  rows !! i = Some f → (length f ≤ width rows)%nat.
Proof.
  revert i. induction rows as [|r rows IH]; intros [|i] H; simpl in *;
    try discriminate.
  - injection H as ->. lia.
  - apply IH in H. lia.
Qed.

Lemma width_uniform rows N :
  rows ≠ [] → (∀ i (f : list float), rows !! i = Some f → length f = N) →
  width rows = N.
Proof.
  induction rows as [|r rows IH]; intros Hne Hall; [congruence|]. simpl.
  pose proof (Hall 0 r eq_refl) as Hr.
  destruct rows as [|r' rows'].
  - simpl. lia.
  - rewrite IH; [lia | discriminate |].
    intros i f Hi. apply (Hall (S i)). exact Hi.
Qed.

Lemma entry_transpose rows i (f : list float) k :
  rows !! i = Some f → (k < width rows)%nat →
  entry (transpose (pd_DataFrame rows)) k i = Some (nth k f nan).
Proof.
  intros Hi Hk. unfold entry, transpose, pd_DataFrame. simpl.
  rewrite list_lookup_fmap, lookup_seq_lt by exact Hk. simpl.
  rewrite !list_lookup_fmap, Hi. simpl. f_equal.
  rewrite nth_lookup, list_lookup_fmap, lookup_seq_lt by exact Hk.
  reflexivity.
Qed.

Lemma transpose_shape rows :
  nrows (transpose (pd_DataFrame rows)) = width rows ∧
  ncols (transpose (pd_DataFrame rows)) = length rows ∧
  length (data (transpose (pd_DataFrame rows))) = width rows ∧
  ∀ row, row ∈ data (transpose (pd_DataFrame rows)) →
         length row = length rows.
Proof.
  unfold transpose, pd_DataFrame. simpl.
  repeat split.
  - rewrite length_map, length_seq. reflexivity.
  - intros row Hrow. apply list_elem_of_fmap in Hrow as (j & -> & _).
    rewrite !length_map. reflexivity.
Qed.
(** ** A successful call *)

Lemma geokrig_Ok variable n model drift1 drift2 w w' m :
  geokrig variable n model drift1 drift2 w = (w', Ok m) →
  ∃ ex w1 cm krig flds kf,
    extract (table w) variable drift1 drift2 = Ok ex ∧
    fit_covariance ex model w = (w1, Ok cm) ∧
    krige ex cm = Ok krig ∧
    Forall2 (λ s f,
        cond_field (krige_cond krig) (mkPos (g_lat ex) (g_lon ex))
          (external_drift_data ex) s = Ok f)
      (subseeds (MasterRNG 20170519) (Z.to_nat n)) flds ∧
    krige_store krig !! "krig" = Some kf ∧
    length kf = index_len (table w) ∧
    table w' = mkDataFrame (index_len (table w))
                 (<["cond_krig" := FloatSeries kf]> (columns (table w))) ∧
    np_random w' = np_random w ∧
    m = transpose (pd_DataFrame flds).
Proof.
  intros H. apply geokrig_inv in H as [(e & _ & [=] & _)|(ex & Hex & H)].
  destruct H as [(e & _ & [=])|(w1 & cm & Hfit & H)].
  destruct H as [(e & _ & [=] & _)|(krig & Hk & H)].
  destruct H as [(e & _ & [=])|(w2 & srf & Hsim & H)].
  destruct (logs_only_frame _ _ _ _ (fit_covariance_logs _ _) Hfit) as [Ht1 Hn1].
  destruct (logs_only_frame _ _ _ _ (simulate_logs _ _ _) Hsim) as [Ht2 Hn2].
  apply simulate_Ok in Hsim as (flds & Hflds & HmapM).
  apply assemble_Ok in H as (flds' & kf & HmapM' & Hkf & Hlen & -> & ->).
  assert (flds' = flds) as -> by congruence.
  exists ex, w1, cm, krig, flds, kf. simpl.
  rewrite Ht2, Ht1 in *. repeat split; auto; congruence.
Qed.

(** C10. Whenever a call raises an error, the caller's table is as it was
    before the call (the kriging column is written only after every
    computation has succeeded), and so is the global random state; the
    call returns the error in place of a matrix. *)
Theorem geokrig_error_leaves_table variable n model drift1 drift2 w w' e :
  geokrig variable n model drift1 drift2 w = (w', Raise e) →
  table w' = table w ∧ np_random w' = np_random w.
Proof.
  intros H. apply geokrig_inv in H as [(e' & _ & _ & ->)|(ex & _ & H)];
    [auto|].
  destruct H as [(e' & Hfit & _)|(w1 & cm & Hfit & H)].
  { exact (logs_only_frame _ _ _ _ (fit_covariance_logs _ _) Hfit). }
  destruct (logs_only_frame _ _ _ _ (fit_covariance_logs _ _) Hfit) as [Ht1 Hn1].
  destruct H as [(e' & _ & _ & ->)|(krig & _ & H)]; [auto|].
  destruct H as [(e' & Hsim & _)|(w2 & srf & Hsim & H)].
  { destruct (logs_only_frame _ _ _ _ (simulate_logs _ _ _) Hsim).
    split; congruence. }
  destruct (logs_only_frame _ _ _ _ (simulate_logs _ _ _) Hsim) as [Ht2 Hn2].
  apply assemble_Raise in H as [-> _]. split; congruence.
Qed.

(** C3. Two runs on the same table with the same arguments return the same
    result and leave the same table, whatever the standard output and the
    global random state were; no run touches the global random state; and
    the fields of a returned matrix are those simulated with the first
    [iterations] sub-seeds of the master generator seeded with 20170519. *)
Theorem geokrig_deterministic variable n model drift1 drift2 df
    out1 out2 g1 g2 :
  (geokrig variable n model drift1 drift2 (mkWorld df out1 g1)).2 =
  (geokrig variable n model drift1 drift2 (mkWorld df out2 g2)).2 ∧
  table (geokrig variable n model drift1 drift2 (mkWorld df out1 g1)).1 =
  table (geokrig variable n model drift1 drift2 (mkWorld df out2 g2)).1 ∧
  np_random (geokrig variable n model drift1 drift2 (mkWorld df out1 g1)).1
    = g1 ∧
  ∀ m, (geokrig variable n model drift1 drift2 (mkWorld df out1 g1)).2 = Ok m →
    ∃ c pos d flds,
      Forall2 (λ s f, cond_field c pos d s = Ok f)
        (subseeds (MasterRNG 20170519) (Z.to_nat n)) flds ∧
      m = reset_index (transpose (pd_DataFrame flds)).
Proof.
  destruct (geokrig_table_only variable n model drift1 drift2
              (mkWorld df out1 g1) (mkWorld df out2 g2) eq_refl)
    as (Hr & Ht & Hn).
  repeat split; try assumption.
  intros m Hm.
  destruct (geokrig variable n model drift1 drift2 (mkWorld df out1 g1))
    as [w' r] eqn:Hrun.
  simpl in Hm. subst r.
  apply geokrig_Ok in Hrun
    as (ex & w1 & cm & krig & flds & kf & _ & _ & _ & Hflds & _ & _ & _ & _ & ->).
  eauto 10.
Qed.
Lemma nth_of_lookup (f : list float) k v : f !! k = Some v → nth k f nan = v.
Proof. intros H. rewrite nth_lookup, H. reflexivity. Qed.

Lemma df_wf_len df c s :
  df_wf df → columns df !! c = Some s → series_len s = index_len df.
Proof. intros Hwf. apply Hwf. Qed.

(** C1, as amended. With [iterations] = n >= 1, on a table of N spatial
    units and a backend that returns one value per target position, a
    successful call returns a matrix of N rows and n columns: row k is
    spatial unit k, in the order of the table's rows, and column i is
    realization i, the field simulated at the centroids of the table's
    rows with sub-seed i. *)
Theorem geokrig_matrix_shape variable n model drift1 drift2 w w' m :
  field_per_position →
  df_wf (table w) →
  (1 ≤ n)%Z →
  geokrig variable n model drift1 drift2 w = (w', Ok m) →
  nrows m = index_len (table w) ∧
  ncols m = Z.to_nat n ∧
  length (data m) = index_len (table w) ∧
  (∀ row, row ∈ data m → length row = Z.to_nat n) ∧
  ∃ c geo d flds,
    columns (table w) !! "geometry" = Some (GeoSeries geo) ∧
    Forall2 (λ s f, cond_field c (positions geo) d s = Ok f)
      (subseeds (MasterRNG 20170519) (Z.to_nat n)) flds ∧
    ∀ i f k, flds !! i = Some f → (k < index_len (table w))%nat →
             entry m k i = f !! k.
Proof.
  intros Hfield Hwf Hn H.
  apply geokrig_Ok in H
    as (ex & w1 & cm & krig & flds & kf & Hex & _ & _ & Hflds & _ & _ & _ & _ & ->).
  apply extract_Ok in Hex
    as (t & geo & c1 & _ & Hgeo & _ & _ & _ & _ & Hglat & Hglon & _).
  rewrite Hglat, Hglon in Hflds. fold (positions geo) in Hflds.
  pose proof (df_wf_len _ _ _ Hwf Hgeo) as Hlen. simpl in Hlen.
  assert (Hall : ∀ i f, flds !! i = Some f → length f = index_len (table w)).
  { intros i f Hi.
    destruct (Forall2_lookup_r _ _ _ _ _ Hflds Hi) as (s & _ & Hs).
    apply Hfield in Hs. simpl in Hs. rewrite length_map in Hs. congruence. }
  assert (Hlenf : length flds = Z.to_nat n).
  { apply Forall2_length in Hflds. rewrite subseeds_length in Hflds. auto. }
  assert (Hw : width flds = index_len (table w)).
  { apply width_uniform; [|exact Hall].
    intros ->. simpl in Hlenf. lia. }
  destruct (transpose_shape flds) as (Hr & Hc & Hd & Hrows).
  rewrite Hw in Hr, Hd. rewrite Hlenf in Hc, Hrows.
  repeat split; try assumption.
  exists (krige_cond krig), geo, (external_drift_data ex), flds.
  repeat split; try assumption.
  intros i f k Hi Hk. rewrite entry_transpose with (f := f) by (auto; lia).
  symmetry. apply Hall in Hi.
  destruct (lookup_lt_is_Some_2 f k) as [v Hv]; [lia|].
  rewrite Hv. f_equal. symmetry. apply nth_of_lookup, Hv.
Qed.

Lemma observed_lookup t k v :
  t !! k = Some v → PrimFloat.is_nan v = false → observed t !! k = Some true.
Proof.
  intros Hk Hv. unfold observed. rewrite !list_lookup_fmap, Hk. simpl.
  rewrite Hv. reflexivity.
Qed.

(** C2. With a backend whose simulation is strictly conditioning, every
    realization returned by a successful call has, at every row of the
    table whose target value is observed (not missing), exactly that
    value. *)
Theorem geokrig_honours_observations variable n model drift1 drift2 w w' m
    t k v i :
  strict_conditioning →
  df_wf (table w) →
  geokrig variable n model drift1 drift2 w = (w', Ok m) →
  columns (table w) !! variable = Some (FloatSeries t) →
  t !! k = Some v →
  PrimFloat.is_nan v = false →
  (0 ≤ i < n)%Z →
  entry m k (Z.to_nat i) = Some v.
Proof.
  intros Hcond Hwf H Ht Hk Hv Hi.
  apply geokrig_Ok in H
    as (ex & w1 & cm & krig & flds & kf & Hex & _ & Hkrig & Hflds & _ & _ & _ & _ & ->).
  apply extract_Ok in Hex
    as (t' & geo & c1 & Ht' & Hgeo & _ & Hlat & Hlon & Hint & Hglat & Hglon & _).
  assert (t' = t) as -> by congruence.
  apply krige_Ok in Hkrig as [Hc _].
  pose proof (df_wf_len _ _ _ Hwf Hgeo) as Hlg.
  pose proof (df_wf_len _ _ _ Hwf Ht) as Hlt. simpl in Hlg, Hlt.
  destruct (lookup_lt_is_Some_2 geo k) as [g Hg].
  { apply lookup_lt_Some in Hk. lia. }
  pose proof (observed_lookup _ _ _ Hk Hv) as Hobs.
  destruct (lookup_lt_is_Some_2 flds (Z.to_nat i)) as [f Hf].
  { apply Forall2_length in Hflds. rewrite subseeds_length in Hflds. lia. }
  destruct (Forall2_lookup_r _ _ _ _ _ Hflds Hf) as (s & _ & Hs).
  assert (Hfk : f !! k = Some v).
  { eapply (Hcond _ _ _ _ _ Hs (rank (observed t) k) k
              (x (centroid g)) (y (centroid g)) v); rewrite ?Hc; simpl.
    - rewrite Hlat, list_lookup_fmap.
      rewrite (mask_select_lookup _ _ _ _ Hobs Hg). reflexivity.
    - rewrite Hlon, list_lookup_fmap.
      rewrite (mask_select_lookup _ _ _ _ Hobs Hg). reflexivity.
    - rewrite Hint. apply mask_select_lookup; assumption.
    - rewrite Hglat, list_lookup_fmap, Hg. reflexivity.
    - rewrite Hglon, list_lookup_fmap, Hg. reflexivity. }
  rewrite entry_transpose with (f := f).
  - f_equal. apply nth_of_lookup, Hfk.
  - exact Hf.
  - apply lookup_lt_Some in Hfk. pose proof (width_ge _ _ _ Hf). lia.
Qed.
(** C7, as amended. A successful call changes the caller's table in one
    way: the column [cond_krig] is set to the kriging estimate at the
    centroids of the table's rows, one value per row in the order of the
    rows.  Every column of another label and the number of rows are
    unchanged; the column is new when the table had no column of that
    label, and replaces the one it had otherwise. *)
Theorem geokrig_writes_cond_krig variable n model drift1 drift2 w w' m :
  geokrig variable n model drift1 drift2 w = (w', Ok m) →
  ∃ kf,
    (∃ c geo d var,
       columns (table w) !! "geometry" = Some (GeoSeries geo) ∧
       krige_field c (positions geo) d None = Ok (kf, var)) ∧
    length kf = index_len (table w) ∧
    index_len (table w') = index_len (table w) ∧
    columns (table w') !! "cond_krig" = Some (FloatSeries kf) ∧
    (∀ c, c ≠ "cond_krig" → columns (table w') !! c = columns (table w) !! c) ∧
    (columns (table w) !! "cond_krig" = None →
     dom (columns (table w')) = {["cond_krig"]} ∪ dom (columns (table w))) ∧
    np_random w' = np_random w.
Proof.
  intros H.
  apply geokrig_Ok in H
    as (ex & w1 & cm & krig & flds & kf & Hex & _ & Hkrig & _ & Hkf & Hlen & Ht & Hn & _).
  apply extract_Ok in Hex
    as (t & geo & c1 & _ & Hgeo & _ & _ & _ & _ & Hglat & Hglon & _).
  apply krige_Ok in Hkrig as (_ & kf' & var & Hfield & Hkf').
  assert (kf' = kf) as -> by congruence.
  rewrite Hglat, Hglon in Hfield. fold (positions geo) in Hfield.
  exists kf. rewrite Ht. simpl. repeat split; try assumption.
  - eauto 10.
  - apply lookup_insert_eq.
  - intros c Hc. apply lookup_insert_ne. congruence.
  - intros _. apply dom_insert_L.
Qed.

Tactic Notation "mbind_lift" hyp(H) "as" ident(a) ident(E) :=
  let w := fresh "w" in
  apply M_bind_Ok in H as (a & w & E & H);
  apply lift_inv in E as [-> E].

Tactic Notation "mbind_emit" hyp(H) :=
  let a := fresh "u" in
  let w := fresh "w" in
  let E := fresh "E" in
  apply M_bind_Ok in H as (a & w & E & H); clear E.

(** C6. With model classes whose new models have the library's default
    nugget 0, and a fit that leaves alone a nugget it is told not to fit,
    the model that the fit returns has nugget exactly 0, whatever the
    data: [geokrig] builds the model without a nugget and fits with
    [nugget=False]. *)
Theorem fitted_nugget_zero e model w w' m :
  default_nugget →
  unfitted_nugget_kept →
  fit_covariance e model w = (w', Ok m) →
  nugget m = 0%float.
Proof.
  intros Hdef Hkept H. unfold fit_covariance in H.
  mbind_lift H as normalizer En.
  mbind_lift H as bv Ev. destruct bv as [bin_center vario].
  mbind_emit H. mbind_lift H as d Ed. mbind_emit H.
  mbind_lift H as m0 Enew. mbind_lift H as m1 Efit.
  mbind_lift H as x_max Ex. mbind_emit H. mbind_emit H.
  injection H as _ <-.
  apply Hkept in Efit. apply Hdef in Enew. congruence.
Qed.

(** C9. With two drift covariates on a well-formed table, the drift array
    of the full set and the drift array of the observation set are both
    stacked with [drift1] first and [drift2] second.  The first has the
    two columns in the order of the table's rows, like the target
    positions; the second has the rows with an observed target value, the
    same selection that gives the observation positions and values: the
    observation taken from row k has the centroid, the target value and
    the two covariates of row k. *)
Theorem drift_arrays_aligned df variable drift1 drift2 e :
  df_wf df →
  extract df variable drift1 (Some drift2) = Ok e →
  ∃ t geo c1 c2,
    columns df !! variable = Some (FloatSeries t) ∧
    columns df !! "geometry" = Some (GeoSeries geo) ∧
    columns df !! drift1 = Some (FloatSeries c1) ∧
    columns df !! drift2 = Some (FloatSeries c2) ∧
    external_drift_data e = Array2 [c1; c2] ∧
    mkPos (g_lat e) (g_lon e) = positions geo ∧
    length c1 = length geo ∧ length c2 = length geo ∧
    external_drift_at_abortion e =
      Array2 [mask_select (observed t) c1; mask_select (observed t) c2] ∧
    mkPos (lat e) (lon e) = positions (mask_select (observed t) geo) ∧
    int_data e = mask_select (observed t) t ∧
    length (mask_select (observed t) c1) = length (lat e) ∧
    length (mask_select (observed t) c2) = length (lat e) ∧
    ∀ k g v a b,
      geo !! k = Some g → t !! k = Some v → PrimFloat.is_nan v = false →
      c1 !! k = Some a → c2 !! k = Some b →
      lat e !! rank (observed t) k = Some (x (centroid g)) ∧
      lon e !! rank (observed t) k = Some (y (centroid g)) ∧
      int_data e !! rank (observed t) k = Some v ∧
      mask_select (observed t) c1 !! rank (observed t) k = Some a ∧
      mask_select (observed t) c2 !! rank (observed t) k = Some b.
Proof.
  intros Hwf H.
  apply extract_Ok in H
    as (t & geo & c1 & Ht & Hgeo & H1 & Hlat & Hlon & Hint & Hglat & Hglon
        & c2 & H2 & Hl & Hd & Hda).
  pose proof (df_wf_len _ _ _ Hwf Hgeo) as Lg.
  pose proof (df_wf_len _ _ _ Hwf H1) as L1.
  pose proof (df_wf_len _ _ _ Hwf H2) as L2. simpl in Lg, L1, L2.
  exists t, geo, c1, c2. unfold positions.
  rewrite Hlat, Hlon, Hglat, Hglon, Hint, Hd, Hda, !length_map.
  repeat split; try assumption; try congruence.
  - apply mask_select_length. congruence.
  - apply mask_select_length. congruence.
  - rewrite list_lookup_fmap, (mask_select_lookup _ _ k g); eauto using observed_lookup.
  - rewrite list_lookup_fmap, (mask_select_lookup _ _ k g); eauto using observed_lookup.
  - eauto using mask_select_lookup, observed_lookup.
  - eauto using mask_select_lookup, observed_lookup.
  - eauto using mask_select_lookup, observed_lookup.
Qed.
(** ** Where the exceptions of a call come from *)

Lemma raises_in_bind {A B} P (r : result A) (f : A → result B) :
  raises_in P r → (∀ a, raises_in P (f a)) → raises_in P (r ≫= f).
Proof.
  intros Hr Hf e H. apply result_bind_Raise in H as [H|(a & _ & H)].
  - apply Hr, H.
  - eapply Hf, H.
Qed.

Lemma raises_in_Ok {A} P (a : A) : raises_in P (Ok a).
Proof. intros e [=]. Qed.

Lemma raises_in_ret {A} P (a : A) : raises_in P (mret a : result A).
Proof. apply raises_in_Ok. Qed.

Lemma M_raises_in_bind {A B} P (m : M A) (f : A → M B) :
  M_raises_in P m → (∀ a, M_raises_in P (f a)) → M_raises_in P (m ≫= f).
Proof.
  intros Hm Hf w w' e H. apply M_bind_Raise in H as [H|(a & w1 & _ & H)].
  - eapply Hm, H.
  - eapply Hf, H.
Qed.

Lemma M_raises_in_lift {A} P (r : result A) :
  raises_in P r → M_raises_in P (lift r).
Proof. intros Hr w w' e H. apply lift_inv in H as [_ H]. apply Hr, H. Qed.

Lemma M_raises_in_ret {A} P (a : A) : M_raises_in P (mret a : M A).
Proof. intros w w' e [=]. Qed.

Lemma M_raises_in_emit P ev : M_raises_in P (emit ev).
Proof. intros w w' e [=]. Qed.

Lemma M_raises_in_for_each {S} P (body : S → nat → M S) l :
  (∀ s i, M_raises_in P (body s i)) → ∀ s, M_raises_in P (for_each body l s).
Proof.
  intros Hb. induction l as [|i l IH]; intros s; simpl.
  - apply M_raises_in_ret.
  - apply M_raises_in_bind; [apply Hb | apply IH].
Qed.

Lemma raises_getitem df c : raises_in collaborator_exn (getitem df c).
Proof.
  intros e. unfold getitem. destruct (columns df !! c); intros [= <-].
  left. exact I.
Qed.

Lemma raises_values s : raises_in collaborator_exn (values s).
Proof. intros e. destruct s; intros [= <-]. left. exact I. Qed.

Lemma raises_geometry s : raises_in collaborator_exn (geometry s).
Proof. intros e. destruct s; intros [= <-]. left. exact I. Qed.

Lemma raises_vstack a b : raises_in collaborator_exn (vstack a b).
Proof.
  intros e. unfold vstack. destruct (decide _); intros [= <-]. left. exact I.
Qed.

Lemma raises_py_max l : raises_in collaborator_exn (py_max l).
Proof. intros e. destruct l; intros [= <-]. left. exact I. Qed.

Lemma raises_stored_pos p : raises_in collaborator_exn (stored_pos p).
Proof. intros e. destruct p; intros [= <-]. left. exact I. Qed.

Lemma raises_field_getitem store name :
  raises_in collaborator_exn (field_getitem store name).
Proof. intros e H. left. eapply field_getitem_Raise, H. Qed.

Lemma raises_vario pos f es ll mt nz :
  raises_in collaborator_exn (vario_estimate pos f es ll mt nz).
Proof. intros e H. right. left. eauto 10. Qed.

Lemma raises_new_model cls dim ll :
  raises_in collaborator_exn (new_model cls dim ll).
Proof. intros e H. right. right. left. eauto 10. Qed.

Lemma raises_fit m xs ys ng loss :
  raises_in collaborator_exn (fit_variogram m xs ys ng loss).
Proof. intros e H. right. do 2 right. left. eauto 10. Qed.

Lemma raises_krige_setup c : raises_in collaborator_exn (krige_setup c).
Proof. intros e H. right. do 3 right. left. eauto 10. Qed.

Lemma raises_krige_field c pos d ch :
  raises_in collaborator_exn (krige_field c pos d ch).
Proof. intros e H. right. do 4 right. left. eauto 10. Qed.

Lemma raises_krige_mean c pos d :
  raises_in collaborator_exn (krige_mean c pos d).
Proof. intros e H. right. do 5 right. left. eauto 10. Qed.

Lemma raises_cond_field c pos d s :
  raises_in collaborator_exn (cond_field c pos d s).
Proof. intros e H. right. do 6 right. eauto 10. Qed.

Ltac raises :=
  repeat first
    [ apply raises_in_bind; [| intros ?]
    | apply M_raises_in_bind; [| intros ?]
    | apply M_raises_in_lift
    | apply M_raises_in_emit | apply M_raises_in_ret
    | apply raises_in_ret | apply raises_in_Ok
    | apply raises_getitem | apply raises_values | apply raises_geometry
    | apply raises_vstack | apply raises_py_max | apply raises_stored_pos
    | apply raises_field_getitem
    | apply raises_vario | apply raises_new_model | apply raises_fit
    | apply raises_krige_setup | apply raises_krige_field
    | apply raises_krige_mean | apply raises_cond_field
    | match goal with
      | |- raises_in _ (match ?p with _ => _ end) => destruct p
      | |- M_raises_in _ (match ?p with _ => _ end) => destruct p
      end ].

Lemma extract_Raise df variable drift1 drift2 e :
  extract df variable drift1 drift2 = Raise e → python_exn e.
Proof.
  intros H.
  assert (raises_in python_exn (extract df variable drift1 drift2)) as Hr;
    [|apply Hr, H].
  clear. unfold extract.
  assert (Hg : ∀ df c, raises_in python_exn (getitem df c)).
  { intros df' c e. unfold getitem. destruct (columns df' !! c);
      intros [= <-]. exact I. }
  assert (Hv : ∀ s, raises_in python_exn (values s)).
  { intros s e. destruct s; intros [= <-]. exact I. }
  assert (Hy : ∀ s, raises_in python_exn (geometry s)).
  { intros s e. destruct s; intros [= <-]. exact I. }
  assert (Hs : ∀ a b, raises_in python_exn (vstack a b)).
  { intros a b e. unfold vstack. destruct (decide _); intros [= <-]. exact I. }
  repeat first
    [ apply raises_in_bind; [| intros ?]
    | apply Hg | apply Hv | apply Hy | apply Hs | apply raises_in_ret
    | match goal with
      | |- raises_in _ (match ?p with _ => _ end) => destruct p
      end ].
Qed.

Lemma krige_Raise ex cm e :
  krige ex cm = Raise e → collaborator_exn e.
Proof.
  intros H.
  assert (raises_in collaborator_exn (krige ex cm)) as Hr; [|apply Hr, H].
  unfold krige, ExtDrift, Krige_unstructured, Krige_call, Krige_call_mean.
  raises.
Qed.

Lemma simulate_Raise ex krig n w w' e :
  simulate ex krig n w = (w', Raise e) → collaborator_exn e.
Proof.
  intros H.
  assert (M_raises_in collaborator_exn (simulate ex krig n)) as Hr;
    [|eapply Hr, H].
  unfold simulate. apply M_raises_in_bind; [|intros; apply M_raises_in_ret].
  apply M_raises_in_for_each. intros v i.
  unfold loop_body, CondSRF_call. raises.
Qed.

Lemma fit_covariance_Raise ex model w w' e :
  fit_covariance ex model w = (w', Raise e) →
  LogNormal (int_data ex) = Raise e ∨ collaborator_exn e.
Proof.
  unfold fit_covariance. intros H.
  apply M_bind_Raise in H as [H|(nz & w1 & _ & H)].
  - apply lift_inv in H as [_ H]. auto.
  - right. revert H.
    match goal with
    | |- ?m _ = _ → _ =>
        assert (M_raises_in collaborator_exn m) as Hr; [|apply Hr]
    end.
    raises.
Qed.

(** Every exception of a call is one of a table operation, of the
    normalizer on the observed values, or of another kernel. *)
Lemma geokrig_Raise variable n model drift1 drift2 w w' e :
  geokrig variable n model drift1 drift2 w = (w', Raise e) →
  (∃ ex, extract (table w) variable drift1 drift2 = Ok ex ∧
         LogNormal (int_data ex) = Raise e) ∨
  collaborator_exn e.
Proof.
  intros H. apply geokrig_inv in H as [(e' & He & [= <-] & _)|(ex & Hex & H)].
  { right. left. eapply extract_Raise, He. }
  destruct H as [(e' & Hfit & [= <-])|(w1 & cm & _ & H)].
  { apply fit_covariance_Raise in Hfit as [?|?]; eauto. }
  destruct H as [(e' & Hk & [= <-] & _)|(krig & _ & H)].
  { right. eapply krige_Raise, Hk. }
  destruct H as [(e' & Hsim & [= <-])|(w2 & srf & _ & H)].
  { right. eapply simulate_Raise, Hsim. }
  apply assemble_Raise in H as [_ H]. right. left. exact H.
Qed.
Lemma result_bind_Ok_eq {A B} (r : result A) (f : A → result B) a :
  r = Ok a → r ≫= f = f a.
Proof. intros ->. reflexivity. Qed.

Lemma vstack_Ok a b : length a = length b → vstack a b = Ok (Array2 [a; b]).
Proof. intros H. unfold vstack. rewrite decide_True by exact H. reflexivity. Qed.

Lemma extract_total df variable drift1 drift2 :
  call_wf df variable drift1 drift2 →
  ∃ ex, extract df variable drift1 drift2 = Ok ex.
Proof.
  intros (Hwf & (t & Ht) & (geo & Hg) & (c1 & H1) & H2).
  unfold extract.
  rewrite (result_bind_Ok_eq (getitem df variable) _ (FloatSeries t))
    by (unfold getitem; rewrite Ht; reflexivity).
  erewrite (result_bind_Ok_eq (_ ≫= geometry))
    by (apply getitem_select_geometry; eauto).
  erewrite (result_bind_Ok_eq (_ ≫= values))
    by (apply getitem_select_values; eauto).
  erewrite (result_bind_Ok_eq (_ ≫= geometry))
    by (apply getitem_geometry; eauto).
  erewrite (result_bind_Ok_eq (_ ≫= values)) by (apply getitem_values; eauto).
  pose proof (df_wf_len _ _ _ Hwf H1) as L1. simpl in L1.
  destruct drift2 as [d|].
  - destruct (H2 d eq_refl) as (c2 & Hc2).
    pose proof (df_wf_len _ _ _ Hwf Hc2) as L2. simpl in L2.
    erewrite (result_bind_Ok_eq (_ ≫= values))
      by (apply getitem_values; eauto).
    erewrite (result_bind_Ok_eq (vstack c1 c2))
      by (apply vstack_Ok; congruence).
    erewrite (result_bind_Ok_eq (_ ≫= values))
      by (apply getitem_select_values; eauto).
    erewrite (result_bind_Ok_eq (_ ≫= values))
      by (apply getitem_select_values; eauto).
    erewrite (result_bind_Ok_eq (vstack _ _))
      by (apply vstack_Ok, mask_select_length; congruence).
    simpl. eauto.
  - erewrite (result_bind_Ok_eq (_ ≫= values))
      by (apply getitem_select_values; eauto).
    simpl. eauto.
Qed.

Lemma mask_select_elem_of_2 {A} (mask : list bool) (l : list A) k a :
  mask !! k = Some true → l !! k = Some a → a ∈ mask_select mask l.
Proof.
  intros Hm Hl. eapply list_elem_of_lookup_2, mask_select_lookup; eauto.
Qed.

Lemma observed_true t k :
  observed t !! k = Some true →
  ∃ v, t !! k = Some v ∧ PrimFloat.is_nan v = false.
Proof.
  unfold observed. rewrite !list_lookup_fmap.
  destruct (t !! k) as [v|]; simpl; [|discriminate].
  intros [= H]. exists v. split; [reflexivity|].
  destruct (PrimFloat.is_nan v); [discriminate | reflexivity].
Qed.

(** C5. With a normalizer that refuses, with [NumericError], exactly the
    data holding a value that is not strictly positive, and kernels that
    raise no [NumericError] otherwise, a call on a table that has the
    named columns raises [NumericError] if and only if some observed
    (non-missing) target value is not strictly positive: the normalizer is
    built from the observed target values alone, before any other kernel
    runs. *)
Theorem geokrig_NumericError_iff variable n model drift1 drift2 w :
  lognormal_domain →
  numeric_error_of_normalizer →
  call_wf (table w) variable drift1 drift2 →
  (∃ w', geokrig variable n model drift1 drift2 w = (w', Raise NumericError))
  ↔
  (∃ t v, columns (table w) !! variable = Some (FloatSeries t) ∧
          v ∈ t ∧ PrimFloat.is_nan v = false ∧ (v <=? 0)%float = true).
Proof.
  intros Hdom Hker Hcall. split.
  - intros (w' & H). apply geokrig_Raise in H as [(ex & Hex & Hln)|[Hp|Hk]].
    + apply Hdom in Hln as (v & Hin & Hv).
      apply extract_Ok in Hex as (t & geo & c1 & Ht & _ & _ & _ & _ & Hint & _).
      rewrite Hint in Hin.
      apply mask_select_elem_of in Hin as (k & Hobs & Hk).
      apply observed_true in Hobs as (v' & Hk' & Hnan).
      assert (v' = v) as -> by congruence.
      exists t, v. repeat split; try assumption.
      eapply list_elem_of_lookup_2, Hk.
    + destruct Hp.
    + apply Hker in Hk. congruence.
  - intros (t & v & Ht & Hin & Hnan & Hv).
    destruct (extract_total _ _ _ _ Hcall) as (ex & Hex).
    pose proof Hex as Hex'.
    apply extract_Ok in Hex' as (t' & geo & c1 & Ht' & _ & _ & _ & _ & Hint & _).
    assert (t' = t) as -> by congruence.
    assert (Hln : LogNormal (int_data ex) = Raise NumericError).
    { apply Hdom. exists v. split; [|exact Hv]. rewrite Hint.
      apply list_elem_of_lookup_1 in Hin as (k & Hk).
      eapply mask_select_elem_of_2; eauto using observed_lookup. }
    exists w. unfold geokrig, mbind at 1 2 3, M_bind, get_df, lift.
    rewrite Hex. unfold fit_covariance, mbind at 1, M_bind, lift.
    rewrite Hln. reflexivity.
Qed.

(** C4, as amended. The entry point checks none of its parameters.  A
    [ConfigurationError] of a call is one that a kernel of the backend
    raised.  With [iterations] < 1 (zero or negative) the simulation loop
    does not run: when extraction, fit and kriging succeed, the call
    writes the kriging column and returns the empty matrix. *)
Theorem geokrig_no_validation variable n model drift1 drift2 w :
  (∀ w', geokrig variable n model drift1 drift2 w
           = (w', Raise ConfigurationError) →
         (∃ data, LogNormal data = Raise ConfigurationError) ∨
         raised_by_kernel ConfigurationError) ∧
  ((n < 1)%Z →
   ∀ ex w1 cm krig kf,
     extract (table w) variable drift1 drift2 = Ok ex →
     fit_covariance ex model w = (w1, Ok cm) →
     krige ex cm = Ok krig →
     krige_store krig !! "krig" = Some kf →
     length kf = index_len (table w) →
     geokrig variable n model drift1 drift2 w =
       (mkWorld
          (mkDataFrame (index_len (table w))
             (<["cond_krig" := FloatSeries kf]> (columns (table w))))
          (stdout w1) (np_random w),
        Ok (mkMatrix 0 0 []))).
Proof.
  split.
  - intros w' H. apply geokrig_Raise in H as [(ex & _ & Hln)|[Hp|Hk]].
    + eauto.
    + destruct Hp.
    + auto.
  - intros Hn ex w1 cm krig kf Hex Hfit Hk Hkf Hlen.
    destruct (logs_only_frame _ _ _ _ (fit_covariance_logs _ _) Hfit)
      as [Ht1 Hn1].
    unfold geokrig, mbind at 1 2 3 4 5, M_bind, get_df, lift.
    rewrite Hex, Hfit, Hk.
    unfold simulate, assemble, range.
    replace (Z.to_nat n) with 0%nat by lia. simpl.
    unfold mbind, M_bind, lift, get_df, put_df, mret, M_ret, field_getitem,
      setitem. simpl.
    rewrite Hkf, Ht1, decide_True by exact Hlen. simpl.
    rewrite Hn1. reflexivity.
Qed.

End Properties.

(** * The small backend meets the contracts *)

Section ToyContracts.
#[local] Existing Instance Toy.backend.

Lemma same_point_refl p : Toy.same_point p p = true.
Proof.
  unfold Toy.same_point. apply andb_true_intro.
  split; apply FloatAxioms.Leibniz.eqb_spec; reflexivity.
Qed.

Lemma existsb_false_lookup {A} (f : A → bool) (l : list A) j a :
  existsb f l = false → l !! j = Some a → f a = false.
Proof.
  revert j. induction l as [|b l IH]; intros [|j] H Hj; simpl in *;
    try discriminate; apply orb_false_elim in H as [H1 H2].
  - congruence.
  - eauto.
Qed.

Lemma observed_at_nodup P V j p v :
  Toy.has_dup P = false → P !! j = Some p → V !! j = Some v →
  Toy.observed_at P V p = Some v.
Proof.
  revert V j. induction P as [|p0 P IH]; intros [|v0 V] [|j] Hd HP HV;
    simpl in *; try discriminate; apply orb_false_elim in Hd as [Hd1 Hd2].
  - injection HP as ->. injection HV as ->. rewrite same_point_refl.
    reflexivity.
  - rewrite (existsb_false_lookup _ _ _ _ Hd1 HP). eauto.
Qed.

Lemma toy_cond_field_Ok c pos d s f :
  cond_field c pos d s = Ok f →
  Toy.well_posed c pos d = true ∧
  f = Toy.interpolate c pos d (Toy.float_of_Z s).
Proof.
  simpl. destruct (Toy.well_posed c pos d); [|discriminate].
  intros [= <-]. auto.
Qed.

Lemma toy_well_posed c pos d :
  Toy.well_posed c pos d = true →
  Toy.has_dup (Toy.points (cond_pos c)) = false ∧
  length (pos_lat (cond_pos c)) = length (cond_val c) ∧
  length (pos_lon (cond_pos c)) = length (cond_val c) ∧
  length (pos_lat pos) = length (pos_lon pos) ∧
  length (Toy.drift_row d) = length (pos_lat pos).
Proof.
  unfold Toy.well_posed. rewrite !andb_true_iff, !bool_decide_eq_true.
  rewrite negb_true_iff. tauto.
Qed.

Lemma points_lookup p k a b :
  pos_lat p !! k = Some a → pos_lon p !! k = Some b →
  Toy.points p !! k = Some (a, b).
Proof.
  intros Ha Hb. unfold Toy.points. rewrite lookup_zip_with, Ha. simpl.
  rewrite Hb. reflexivity.
Qed.

Lemma toy_field_per_position : field_per_position.
Proof.
  intros c pos d s f H. apply toy_cond_field_Ok in H as [Hw ->].
  apply toy_well_posed in Hw as (_ & _ & _ & Hll & Hd).
  unfold Toy.interpolate, Toy.points.
  rewrite length_zip_with, length_zip_with. lia.
Qed.

Lemma toy_strict_conditioning : strict_conditioning.
Proof.
  intros c pos d s f H j k a b v Hja Hjb Hjv Hka Hkb.
  apply toy_cond_field_Ok in H as [Hw ->].
  apply toy_well_posed in Hw as (Hdup & _ & _ & Hll & Hd).
  destruct (lookup_lt_is_Some_2 (Toy.drift_row d) k) as [dv Hdv].
  { apply lookup_lt_Some in Hka. lia. }
  unfold Toy.interpolate.
  rewrite lookup_zip_with, (points_lookup _ _ _ _ Hka Hkb). simpl.
  rewrite Hdv. simpl.
  rewrite (observed_at_nodup _ _ j (a, b) v); auto using points_lookup.
Qed.

Lemma toy_default_nugget : default_nugget.
Proof. intros cls dim ll m [= <-]. reflexivity. Qed.

Lemma toy_unfitted_nugget_kept : unfitted_nugget_kept.
Proof.
  intros m xs ys loss m'. simpl. destruct (py_max ys); intros [= <-].
  reflexivity.
Qed.

Lemma toy_lognormal_domain : lognormal_domain.
Proof.
  intros data. simpl.
  destruct (existsb (λ v, (v <=? 0)%float) data) eqn:E.
  - split; [intros _ | reflexivity].
    apply existsb_exists in E as (v & Hin & Hv). exists v.
    split; [apply list_elem_of_In, Hin | exact Hv].
  - split; [discriminate|]. intros (v & Hin & Hv).
    apply list_elem_of_lookup_1 in Hin as (k & Hk).
    rewrite (existsb_false_lookup _ _ _ _ E Hk) in Hv. discriminate.
Qed.

Lemma toy_kernels_no_NumericError : numeric_error_of_normalizer.
Proof.
  intros e. unfold raised_by_kernel. simpl.
  intros [(pos & f & es & ll & mt & nz & H)
         |[(cls & dim & ll & H)
         |[(m & xs & ys & ng & loss & H)
         |[(c & H)
         |[(c & pos & d & ch & H)
         |[(c & pos & d & H)
         |(c & pos & d & s & H)]]]]]];
    repeat case_match; congruence.
Qed.

End ToyContracts.

(** * The pipeline on the small table *)

Section ToyRuns.
#[local] Existing Instance Toy.backend.

Lemma df_wf_counties : df_wf Toy.counties.
Proof.
  change (map_Forall (λ _ s, series_len s = index_len Toy.counties)
            (columns Toy.counties)).
  apply (bool_decide_unpack _). vm_compute. exact I.
Qed.

Lemma df_wf_counties_negative : df_wf Toy.counties_negative.
Proof.
  change (map_Forall (λ _ s, series_len s = index_len Toy.counties_negative)
            (columns Toy.counties_negative)).
  apply (bool_decide_unpack _). vm_compute. exact I.
Qed.

Lemma run_eq {A} (m : M A) w r : (m w).2 = r → m w = ((m w).1, r).
Proof. destruct (m w). simpl. intros ->. reflexivity. Qed.

(** Two realizations over the three units: the units are the rows. *)
Lemma run_counties :
  (Toy.run "rate" 2 (Some "pov") Toy.counties).2 =
  Ok (mkMatrix 3 2 [[2; 2]; [63973; 13256]; [4; 4]]%float).
Proof. vm_compute. reflexivity. Qed.

(** C1, counterexample. Two realizations over three spatial units: the
    returned matrix has three rows and two columns, not two rows and three
    columns. *)
Lemma geokrig_matrix_not_realizations_by_units :
  ∃ w' m,
    geokrig "rate" 2 "Matern" "dist" (Some "pov") (Toy.world Toy.counties)
      = (w', Ok m) ∧
    index_len Toy.counties = 3 ∧
    nrows m = 3 ∧ ncols m = 2 ∧
    ¬ (nrows m = 2 ∧ ncols m = 3).
Proof.
  eexists _, _. split; [exact (run_eq _ _ _ run_counties)|].
  simpl. repeat split. intros [H _]. discriminate H.
Qed.

(** [geokrig_matrix_shape] at the table [counties], two realizations. *)
Lemma geokrig_matrix_shape_witness :
  ∃ w' m,
    geokrig "rate" 2 "Matern" "dist" (Some "pov") (Toy.world Toy.counties)
      = (w', Ok m) ∧
    nrows m = 3 ∧ ncols m = 2.
Proof.
  eexists _, _. split; [exact (run_eq _ _ _ run_counties)|].
  destruct (geokrig_matrix_shape (backend := Toy.backend)
              "rate" 2 "Matern" "dist" (Some "pov") (Toy.world Toy.counties)
              _ _ toy_field_per_position df_wf_counties ltac:(lia)
              (run_eq _ _ _ run_counties))
    as (H1 & H2 & _).
  split; [exact H1 | exact H2].
Defined.
(** [geokrig_honours_observations] at the third unit of [counties], whose
    rate is 4, and the second realization. *)
Lemma geokrig_honours_observations_witness :
  entry (mkMatrix 3 2 [[2; 2]; [63973; 13256]; [4; 4]]%float) 2 1
  = Some 4%float.
Proof.
  apply (geokrig_honours_observations (backend := Toy.backend)
           "rate" 2 "Matern" "dist" (Some "pov") (Toy.world Toy.counties)
           _ _ [2; nan; 4]%float 2 4%float 1
           toy_strict_conditioning df_wf_counties
           (run_eq _ _ _ run_counties)).
  - vm_compute. reflexivity.
  - reflexivity.
  - vm_compute. reflexivity.
  - lia.
Defined.

(** No realization, zero or negative: the call succeeds. *)
Lemma run_counties_0 :
  (Toy.run "rate" 0 None Toy.counties).2 = Ok (mkMatrix 0 0 []) ∧
  (Toy.run "rate" (-3) None Toy.counties).2 = Ok (mkMatrix 0 0 []).
Proof. split; vm_compute; reflexivity. Qed.

(** C4, counterexample. With [iterations] 0, and with [iterations] -3, the
    call raises no [ConfigurationError]: it returns an empty matrix, and
    the table has the kriging column. *)
Lemma geokrig_accepts_iterations_below_1 :
  (∃ w', geokrig "rate" 0 "Matern" "dist" None (Toy.world Toy.counties)
           = (w', Ok (mkMatrix 0 0 [])) ∧
         columns (table w') !! "cond_krig"
           = Some (FloatSeries [2; 8; 4]%float)) ∧
  (∃ w', geokrig "rate" (-3) "Matern" "dist" None (Toy.world Toy.counties)
           = (w', Ok (mkMatrix 0 0 []))).
Proof.
  split.
  - eexists. split; [exact (run_eq _ _ _ (proj1 run_counties_0))|].
    vm_compute. reflexivity.
  - eexists. exact (run_eq _ _ _ (proj2 run_counties_0)).
Qed.

(** [geokrig_no_validation] at [counties] with [iterations] -3. *)
Lemma geokrig_no_validation_witness :
  (geokrig "rate" (-3) "Matern" "dist" None (Toy.world Toy.counties)).2
  = Ok (mkMatrix 0 0 []).
Proof.
  erewrite (proj2 (geokrig_no_validation (backend := Toy.backend)
                     "rate" (-3) "Matern" "dist" None (Toy.world Toy.counties))
              ltac:(lia) _ _ _ _ [2; 8; 4]%float).
  - reflexivity.
  - vm_compute. reflexivity.
  - apply run_eq. reflexivity.
  - reflexivity.
  - reflexivity.
  - reflexivity.
Defined.
Lemma extract_counties :
  extract Toy.counties "rate" "dist" (Some "pov") = Ok Toy.obs.
Proof. vm_compute. reflexivity. Qed.

Lemma fit_counties :
  (fit_covariance (backend := Toy.backend) Toy.obs "Matern"
     (Toy.world Toy.counties)).2
  = Ok (Toy.mkModel 0.875 2 0).
Proof. vm_compute. reflexivity. Qed.

Lemma run_counties_negative :
  (Toy.run "rate" 2 None Toy.counties_negative).2 = Raise NumericError.
Proof. vm_compute. reflexivity. Qed.

Lemma call_wf_counties_negative :
  call_wf Toy.counties_negative "rate" "dist" None.
Proof.
  split; [exact df_wf_counties_negative|].
  repeat split; try (eexists; vm_compute; reflexivity).
  intros d [=].
Qed.

(** [geokrig_NumericError_iff] at the table [counties_negative]. *)
Lemma geokrig_NumericError_iff_witness :
  (∃ w', geokrig "rate" 2 "Matern" "dist" None
           (Toy.world Toy.counties_negative) = (w', Raise NumericError))
  ↔
  (∃ t v, columns Toy.counties_negative !! "rate" = Some (FloatSeries t) ∧
          v ∈ t ∧ PrimFloat.is_nan v = false ∧ (v <=? 0)%float = true).
Proof.
  exact (geokrig_NumericError_iff (backend := Toy.backend)
           "rate" 2 "Matern" "dist" None (Toy.world Toy.counties_negative)
           toy_lognormal_domain toy_kernels_no_NumericError
           call_wf_counties_negative).
Defined.

(** [geokrig_error_leaves_table] at the failing call on
    [counties_negative]. *)
Lemma geokrig_error_leaves_table_witness :
  table (Toy.run "rate" 2 None Toy.counties_negative).1
    = Toy.counties_negative ∧
  np_random (Toy.run "rate" 2 None Toy.counties_negative).1 = 0%Z.
Proof.
  exact (geokrig_error_leaves_table (backend := Toy.backend)
           "rate" 2 "Matern" "dist" None (Toy.world Toy.counties_negative)
           _ _ (run_eq _ _ _ run_counties_negative)).
Defined.

(** [fitted_nugget_zero] at the fit on [counties]. *)
Lemma fitted_nugget_zero_witness :
  nugget (Toy.mkModel 0.875 2 0) = 0%float.
Proof.
  exact (fitted_nugget_zero (backend := Toy.backend) Toy.obs "Matern"
           (Toy.world Toy.counties) _ _
           toy_default_nugget toy_unfitted_nugget_kept
           (run_eq _ _ _ fit_counties)).
Defined.

(** [drift_arrays_aligned] at [counties] with the covariates [dist] and
    [pov]. *)
Lemma drift_arrays_aligned_witness :
  ∃ c1 c2,
    columns Toy.counties !! "dist" = Some (FloatSeries c1) ∧
    columns Toy.counties !! "pov" = Some (FloatSeries c2) ∧
    external_drift_data Toy.obs = Array2 [c1; c2] ∧
    external_drift_at_abortion Toy.obs =
      Array2 [mask_select [true; false; true] c1;
              mask_select [true; false; true] c2].
Proof.
  destruct (drift_arrays_aligned
              Toy.counties "rate" "dist" "pov" Toy.obs
              df_wf_counties extract_counties)
    as (t & geo & c1 & c2 & Ht & _ & H1 & H2 & Hd & _ & _ & _ & Ha & _).
  exists c1, c2. repeat split; try assumption.
  vm_compute in Ht. injection Ht as <-. exact Ha.
Defined.

(** The table had a column [cond_krig] before the call. *)
Lemma run_counties_kriged :
  (Toy.run "rate" 2 None Toy.counties_kriged).2 =
  Ok (mkMatrix 3 2 [[2; 2]; [63973; 13256]; [4; 4]]%float).
Proof. vm_compute. reflexivity. Qed.

(** C7, counterexample. On a table that has a column [cond_krig] already,
    a successful call changes the values of that column. *)
Lemma geokrig_overwrites_cond_krig :
  ∃ w' m,
    geokrig "rate" 2 "Matern" "dist" None (Toy.world Toy.counties_kriged)
      = (w', Ok m) ∧
    columns Toy.counties_kriged !! "cond_krig"
      = Some (FloatSeries [7; 7; 7]%float) ∧
    columns (table w') !! "cond_krig" = Some (FloatSeries [2; 8; 4]%float) ∧
    columns (table w') !! "cond_krig"
      ≠ columns Toy.counties_kriged !! "cond_krig".
Proof.
  eexists _, _. split; [exact (run_eq _ _ _ run_counties_kriged)|].
  assert (H1 : columns Toy.counties_kriged !! "cond_krig"
               = Some (FloatSeries [7; 7; 7]%float))
    by (vm_compute; reflexivity).
  assert (H2 : columns (table (Toy.run "rate" 2 None Toy.counties_kriged).1)
                 !! "cond_krig" = Some (FloatSeries [2; 8; 4]%float))
    by (vm_compute; reflexivity).
  repeat split; try assumption.
  unfold Toy.run in H2. rewrite H1, H2. intros H.
  apply (f_equal (λ o, match o with
                       | Some (FloatSeries (a :: _)) => (a =? 7)%float
                       | _ => false
                       end)) in H.
  vm_compute in H. discriminate H.
Qed.

(** [geokrig_writes_cond_krig] at [counties]: the column [dist] is as it
    was. *)
Lemma geokrig_writes_cond_krig_witness :
  columns (table (Toy.run "rate" 2 (Some "pov") Toy.counties).1) !! "dist"
  = columns Toy.counties !! "dist".
Proof.
  destruct (geokrig_writes_cond_krig (backend := Toy.backend)
              "rate" 2 "Matern" "dist" (Some "pov") (Toy.world Toy.counties)
              _ _ (run_eq _ _ _ run_counties))
    as (kf & _ & _ & _ & _ & Hother & _).
  apply Hother. discriminate.
Defined.

(** C8, at the table [counties]. The centroids of the observed units are
    (x, y) = (10, 50) and (12, 52), x the longitude-like coordinate.  The
    kriging object is conditioned on a position tuple whose latitude slot
    holds 10 and 12, the x coordinates; the y coordinates are in the
    longitude slot.  The same holds of the target positions. *)
Lemma latitude_slot_receives_x :
  ∃ krig,
    extract Toy.counties "rate" "dist" (Some "pov") = Ok Toy.obs ∧
    krige (backend := Toy.backend) Toy.obs (Toy.mkModel 0.875 2 0) = Ok krig ∧
    map (λ g, x (centroid g)) [Toy.geom 10 50; Toy.geom 12 52]
      = [10; 12]%float ∧
    pos_lat (cond_pos (krige_cond krig)) = [10; 12]%float ∧
    pos_lon (cond_pos (krige_cond krig)) = [50; 52]%float ∧
    krige_pos krig = Some (mkPos [10; 11; 12]%float [50; 51; 52]%float).
Proof.
  eexists. split; [exact extract_counties|].
  split; [reflexivity|]. repeat split; reflexivity.
Qed.

End ToyRuns.

(** * Further properties of the pipeline *)

Section MoreProperties.
Context `{backend : Backend}.

(** ** A call, stage by stage *)

Lemma run_pair {A} (m : M A) w r : (m w).2 = r → m w = ((m w).1, r).
Proof. destruct (m w). simpl. intros ->. reflexivity. Qed.

Lemma geokrig_unfold variable n model drift1 drift2 w :
  geokrig variable n model drift1 drift2 w =
  match extract (table w) variable drift1 drift2 with
  | Raise e => (w, Raise e)
  | Ok ex =>
      match fit_covariance ex model w with
      | (w1, Raise e) => (w1, Raise e)
      | (w1, Ok cm) =>
          match krige ex cm with
          | Raise e => (w1, Raise e)
          | Ok krig =>
              match simulate ex krig n w1 with
              | (w2, Raise e) => (w2, Raise e)
              | (w2, Ok srf) => assemble krig srf n w2
              end
          end
      end
  end.
Proof.
  unfold geokrig, mbind at 1 2 3 4 5, M_bind, lift, get_df.
  destruct (extract _ _ _ _) as [ex|e]; [|reflexivity].
  destruct (fit_covariance ex model w) as [w1 [cm|e]]; [|reflexivity].
  destruct (krige ex cm) as [krig|e]; reflexivity.
Qed.

Lemma geokrig_extract_Raise variable n model drift1 drift2 w e :
  extract (table w) variable drift1 drift2 = Raise e →
  geokrig variable n model drift1 drift2 w = (w, Raise e).
Proof. intros H. rewrite geokrig_unfold, H. reflexivity. Qed.

Lemma result_bind_Raise_eq {A B} (r : result A) (f : A → result B) e :
  r = Raise e → r ≫= f = Raise e.
Proof. intros ->. reflexivity. Qed.

(** ** Missing columns *)

(** X1. A table without the target column: the call raises [KeyError] of
    that name at line 59, and the world (table, standard output, random
    state) is as before. *)
Theorem geokrig_missing_target variable n model drift1 drift2 w :
  columns (table w) !! variable = None →
  geokrig variable n model drift1 drift2 w = (w, Raise (KeyError variable)).
Proof.
  intros H. apply geokrig_extract_Raise. unfold extract.
  apply result_bind_Raise_eq. unfold getitem. rewrite H. reflexivity.
Qed.

(** X2. A table with the target column and no column [geometry]: the call
    raises [KeyError "geometry"] at line 63, and the world is as before. *)
Theorem geokrig_missing_geometry variable n model drift1 drift2 w target :
  columns (table w) !! variable = Some target →
  columns (table w) !! "geometry" = None →
  geokrig variable n model drift1 drift2 w = (w, Raise (KeyError "geometry")).
Proof.
  intros Hv Hg. apply geokrig_extract_Raise. unfold extract.
  rewrite (result_bind_Ok_eq (getitem (table w) variable) _ target)
    by (unfold getitem; rewrite Hv; reflexivity).
  apply result_bind_Raise_eq. rewrite getitem_select, Hg. reflexivity.
Qed.

(** X3. A table with a numeric target column and a geometry column, and a
    named drift column that is missing (the first, or the second when the
    first is there): the call raises [KeyError] of the missing name (lines
    71 and 74), and the world is as before. *)
Theorem geokrig_missing_drift variable n model drift1 drift2 w t geo d :
  columns (table w) !! variable = Some (FloatSeries t) →
  columns (table w) !! "geometry" = Some (GeoSeries geo) →
  (d = drift1 ∧ columns (table w) !! drift1 = None) ∨
  (∃ c1, columns (table w) !! drift1 = Some (FloatSeries c1) ∧
         drift2 = Some d ∧ columns (table w) !! d = None) →
  geokrig variable n model drift1 drift2 w = (w, Raise (KeyError d)).
Proof.
  intros Hv Hg Hd. apply geokrig_extract_Raise. unfold extract.
  rewrite (result_bind_Ok_eq (getitem (table w) variable) _ (FloatSeries t))
    by (unfold getitem; rewrite Hv; reflexivity).
  erewrite (result_bind_Ok_eq (_ ≫= geometry))
    by (apply getitem_select_geometry; eauto).
  erewrite (result_bind_Ok_eq (_ ≫= values))
    by (apply getitem_select_values; eauto).
  erewrite (result_bind_Ok_eq (_ ≫= geometry))
    by (apply getitem_geometry; eauto).
  destruct Hd as [[-> H1]|(c1 & H1 & -> & H2)].
  - apply result_bind_Raise_eq. unfold getitem. rewrite H1. reflexivity.
  - erewrite (result_bind_Ok_eq (_ ≫= values))
      by (apply getitem_values; eauto).
    apply result_bind_Raise_eq. unfold getitem. rewrite H2. reflexivity.
Qed.

(** ** Failures of the first stages, and what is printed before them *)

(** X4. When the normalizer refuses the observed values, the call ends
    with the normalizer's own exception; nothing has been printed and the
    world is as before. *)
Theorem geokrig_normalizer_error variable n model drift1 drift2 w ex e :
  extract (table w) variable drift1 drift2 = Ok ex →
  LogNormal (int_data ex) = Raise e →
  geokrig variable n model drift1 drift2 w = (w, Raise e).
Proof.
  intros Hex Hln. rewrite geokrig_unfold, Hex.
  unfold fit_covariance, mbind at 1, M_bind, lift. rewrite Hln. reflexivity.
Qed.

(** X5. When the variogram estimator returns no bin, the call prints the
    bin number 0 and then fails with [ValueError] at [max(bin_center)]
    (line 96), before any model is built; the table is as before. *)
Theorem geokrig_no_bins variable n model drift1 drift2 w ex nz vario :
  extract (table w) variable drift1 drift2 = Ok ex →
  LogNormal (int_data ex) = Ok nz →
  vario_estimate (mkPos (lat ex) (lon ex)) (int_data ex)
    "cressie" true "unstructured" nz = Ok ([], vario) →
  geokrig variable n model drift1 drift2 w =
    (mkWorld (table w) (stdout w ++ [print_bin_number 0])%list (np_random w),
     Raise ValueError).
Proof.
  intros Hex Hln Hv. rewrite geokrig_unfold, Hex.
  unfold fit_covariance, mbind, M_bind, lift, emit.
  rewrite Hln, Hv. reflexivity.
Qed.

(** X6. When the fit fails, the call ends with the fit's own exception
    after the two diagnostics of lines 95-96 (bin number and largest bin)
    have been printed, and nothing else; the table is as before. *)
Theorem geokrig_fit_error variable n model drift1 drift2 w ex nz
    bin_center vario d m0 e :
  extract (table w) variable drift1 drift2 = Ok ex →
  LogNormal (int_data ex) = Ok nz →
  vario_estimate (mkPos (lat ex) (lon ex)) (int_data ex)
    "cressie" true "unstructured" nz = Ok (bin_center, vario) →
  py_max bin_center = Ok d →
  new_model model 2 true = Ok m0 →
  fit_variogram m0 bin_center vario false "cauchy" = Raise e →
  geokrig variable n model drift1 drift2 w =
    (mkWorld (table w)
       (stdout w ++ [print_bin_number (length bin_center); print_max_bin d])%list
       (np_random w),
     Raise e).
Proof.
  intros Hex Hln Hv Hd Hm Hfit. rewrite geokrig_unfold, Hex.
  unfold fit_covariance, mbind, M_bind, lift, emit.
  rewrite Hln, Hv, Hd. simpl. rewrite Hm, Hfit. simpl.
  rewrite <- app_assoc. reflexivity.
Qed.

(** ** What a successful call prints *)

Lemma fit_covariance_Ok ex model w w1 cm :
  fit_covariance ex model w = (w1, Ok cm) →
  ∃ nz bin_center vario d m0,
    LogNormal (int_data ex) = Ok nz ∧
    vario_estimate (mkPos (lat ex) (lon ex)) (int_data ex)
      "cressie" true "unstructured" nz = Ok (bin_center, vario) ∧
    py_max bin_center = Ok d ∧
    new_model model 2 true = Ok m0 ∧
    fit_variogram m0 bin_center vario false "cauchy" = Ok cm ∧
    w1 = mkWorld (table w) (stdout w ++ fit_lines bin_center vario d cm)%list
           (np_random w).
Proof.
  unfold fit_covariance, mbind, M_bind, lift, emit.
  destruct (LogNormal (int_data ex)) as [nz|] eqn:Hln; [|discriminate].
  destruct (vario_estimate _ _ _ _ _ nz) as [[b v]|] eqn:Hv; [|discriminate].
  destruct (py_max b) as [d|] eqn:Hd; simpl; [|discriminate].
  destruct (new_model model 2 true) as [m0|] eqn:Hm; [|discriminate].
  destruct (fit_variogram m0 b v false "cauchy") as [m1|] eqn:Hfit; simpl;
    [|discriminate].
  intros [= <- <-]. exists nz, b, v, d, m0.
  repeat split; try assumption.
  unfold fit_lines. rewrite <- !app_assoc. reflexivity.
Qed.

Lemma loop_body_stdout d v i w w' v' :
  loop_body d v i w = (w', Ok v') →
  stdout w' = (stdout w ++ [print_rule; print_iteration i])%list.
Proof.
  unfold loop_body, mbind, M_bind, lift, emit.
  destruct (next_seed (seed v)) as [s r].
  destruct (CondSRF_call _ _ _ _) as [srf|]; [|discriminate].
  destruct (field_getitem _ _) as [f|]; simpl; [|discriminate].
  intros [= <- _]. simpl. rewrite <- app_assoc. reflexivity.
Qed.

Lemma for_each_stdout d l : ∀ v w w' v',
  for_each (loop_body d) l v w = (w', Ok v') →
  stdout w' = (stdout w ++ iteration_lines l)%list.
Proof.
  induction l as [|i l IH]; intros v w w' v' H; simpl in H.
  - injection H as <- _. unfold iteration_lines. simpl.
    rewrite app_nil_r. reflexivity.
  - apply M_bind_Ok in H as (v1 & w1 & E & H).
    apply loop_body_stdout in E. apply IH in H. rewrite H, E.
    unfold iteration_lines. simpl. rewrite <- app_assoc. reflexivity.
Qed.

Lemma simulate_stdout ex krig n w w' srf :
  simulate ex krig n w = (w', Ok srf) →
  stdout w' = (stdout w ++ iteration_lines (range n))%list.
Proof.
  unfold simulate. intros H. apply M_bind_Ok in H as (v & w1 & E & H).
  injection H as <- _. eapply for_each_stdout, E.
Qed.

(** X7. A successful call appends to the standard output, in this order:
    the number of bins, the largest bin center, the plot and the fitted
    model (lines 95-106), and then, for each iteration from 0 to
    [iterations] - 1 in turn, a rule and the iteration number (lines
    134-135); nothing else. *)
Theorem geokrig_prints variable n model drift1 drift2 w w' m :
  geokrig variable n model drift1 drift2 w = (w', Ok m) →
  ∃ ex nz bin_center vario d cm,
    extract (table w) variable drift1 drift2 = Ok ex ∧
    LogNormal (int_data ex) = Ok nz ∧
    vario_estimate (mkPos (lat ex) (lon ex)) (int_data ex)
      "cressie" true "unstructured" nz = Ok (bin_center, vario) ∧
    py_max bin_center = Ok d ∧
    stdout w' =
      (stdout w ++ fit_lines bin_center vario d cm
                ++ iteration_lines (range n))%list.
Proof.
  intros H. apply geokrig_inv in H as [(e & _ & [=] & _)|(ex & Hex & H)].
  destruct H as [(e & _ & [=])|(w1 & cm & Hfit & H)].
  destruct H as [(e & _ & [=] & _)|(krig & Hk & H)].
  destruct H as [(e & _ & [=])|(w2 & srf & Hsim & H)].
  apply fit_covariance_Ok in Hfit
    as (nz & b & v & d & m0 & Hln & Hv & Hd & _ & _ & ->).
  apply simulate_stdout in Hsim. simpl in Hsim.
  apply assemble_Ok in H as (flds & kf & _ & _ & _ & -> & _). simpl.
  exists ex, nz, b, v, d, cm. rewrite Hsim, <- app_assoc. auto.
Qed.

(** ** The observation set *)

Lemma mask_select_observed t :
  mask_select (observed t) t = filter (λ v, PrimFloat.is_nan v = false) t.
Proof.
  induction t as [|v t IH]; [reflexivity|].
  unfold observed in *. simpl. rewrite filter_cons.
  destruct (PrimFloat.is_nan v) eqn:E; simpl.
  - exact IH.
  - f_equal. exact IH.
Qed.

Lemma observed_length t : length (observed t) = length t.
Proof. unfold observed. rewrite !length_map. reflexivity. Qed.

(** X8. The values that the call conditions on are the target values that
    are not missing, in the order of the rows: none of them is NaN, and on
    a well-formed table there is one observation position (latitude slot
    and longitude slot) per such value. *)
Theorem observations_not_missing df variable drift1 drift2 ex :
  df_wf df →
  extract df variable drift1 drift2 = Ok ex →
  ∃ t,
    columns df !! variable = Some (FloatSeries t) ∧
    int_data ex = filter (λ v, PrimFloat.is_nan v = false) t ∧
    (∀ v, v ∈ int_data ex → PrimFloat.is_nan v = false) ∧
    length (lat ex) = length (int_data ex) ∧
    length (lon ex) = length (int_data ex).
Proof.
  intros Hwf H.
  apply extract_Ok in H
    as (t & geo & c1 & Ht & Hg & _ & Hlat & Hlon & Hint & _).
  pose proof (df_wf_len _ _ _ Hwf Ht) as Lt.
  pose proof (df_wf_len _ _ _ Hwf Hg) as Lg. simpl in Lt, Lg.
  exists t. rewrite Hlat, Hlon, Hint, !length_map.
  repeat split; try assumption.
  - apply mask_select_observed.
  - intros v Hv. rewrite mask_select_observed in Hv.
    apply list_elem_of_filter in Hv as [Hv _]. exact Hv.
  - apply mask_select_length. congruence.
  - apply mask_select_length. congruence.
Qed.

Lemma mask_select_all {A} (mask : list bool) (l : list A) :
  Forall (λ b, b = true) mask → length l = length mask →
  mask_select mask l = l.
Proof.
  intros Hm. revert l. induction Hm as [|b mask -> _ IH]; intros [|a l] Hl;
    simpl in *; try discriminate; try reflexivity.
  f_equal. apply IH. lia.
Qed.

Lemma mask_select_none {A} (mask : list bool) (l : list A) :
  Forall (λ b, b = false) mask → mask_select mask l = [].
Proof.
  intros Hm. revert l. induction Hm as [|b mask -> _ IH]; intros [|a l];
    simpl; auto.
Qed.

Lemma observed_all t :
  (∀ v, v ∈ t → PrimFloat.is_nan v = false) →
  Forall (λ b, b = true) (observed t).
Proof.
  intros H. unfold observed. rewrite !Forall_fmap. apply Forall_forall.
  intros v Hv. simpl. rewrite (H v Hv). reflexivity.
Qed.

Lemma observed_none t :
  (∀ v, v ∈ t → PrimFloat.is_nan v = true) →
  Forall (λ b, b = false) (observed t).
Proof.
  intros H. unfold observed. rewrite !Forall_fmap. apply Forall_forall.
  intros v Hv. simpl. rewrite (H v Hv). reflexivity.
Qed.

(** X9. On a well-formed table whose target column has no missing value,
    the call is not refused at extraction: the observation set is the whole
    table.  The observation positions are the target positions, the
    observed values are the whole target column, and the drift array of
    the observations is the drift array of the targets. *)
Theorem extract_nothing_missing df variable drift1 drift2 ex t :
  df_wf df →
  extract df variable drift1 drift2 = Ok ex →
  columns df !! variable = Some (FloatSeries t) →
  (∀ v, v ∈ t → PrimFloat.is_nan v = false) →
  lat ex = g_lat ex ∧ lon ex = g_lon ex ∧ int_data ex = t ∧
  external_drift_at_abortion ex = external_drift_data ex.
Proof.
  intros Hwf H Ht Hall.
  apply extract_Ok in H
    as (t' & geo & c1 & Ht' & Hg & H1 & Hlat & Hlon & Hint & Hglat & Hglon & Hd).
  assert (t' = t) as -> by congruence.
  pose proof (df_wf_len _ _ _ Hwf Ht) as Lt.
  pose proof (df_wf_len _ _ _ Hwf Hg) as Lg.
  pose proof (df_wf_len _ _ _ Hwf H1) as L1. simpl in Lt, Lg, L1.
  pose proof (observed_all _ Hall) as Hobs.
  assert (Hsel : ∀ A (l : list A), length l = index_len df →
                   mask_select (observed t) l = l).
  { intros A l Hl. apply mask_select_all; [exact Hobs|].
    rewrite observed_length. congruence. }
  rewrite Hlat, Hlon, Hint, Hglat, Hglon, !Hsel by assumption.
  repeat split.
  destruct drift2 as [d2|].
  - destruct Hd as (c2 & H2 & _ & -> & ->).
    pose proof (df_wf_len _ _ _ Hwf H2) as L2. simpl in L2.
    rewrite !Hsel by assumption. reflexivity.
  - destruct Hd as (-> & ->). rewrite Hsel by assumption. reflexivity.
Qed.

(** X10. When every target value is missing, extraction still succeeds
    with an empty observation set: no observation position, no observed
    value, and drift rows of length 0; no guard stops the call before the
    backend is given empty data. *)
Theorem extract_all_missing df variable drift1 drift2 ex t :
  extract df variable drift1 drift2 = Ok ex →
  columns df !! variable = Some (FloatSeries t) →
  (∀ v, v ∈ t → PrimFloat.is_nan v = true) →
  lat ex = [] ∧ lon ex = [] ∧ int_data ex = [] ∧
  external_drift_at_abortion ex =
    match drift2 with
    | None => Array1 []
    | Some _ => Array2 [[]; []]
    end.
Proof.
  intros H Ht Hall.
  apply extract_Ok in H
    as (t' & geo & c1 & Ht' & Hg & H1 & Hlat & Hlon & Hint & _ & _ & Hd).
  assert (t' = t) as -> by congruence.
  pose proof (observed_none _ Hall) as Hobs.
  rewrite Hlat, Hlon, Hint, !mask_select_none by exact Hobs.
  repeat split.
  destruct drift2 as [d2|].
  - destruct Hd as (c2 & _ & _ & _ & ->).
    rewrite !mask_select_none by exact Hobs. reflexivity.
  - destruct Hd as (_ & ->). rewrite mask_select_none by exact Hobs.
    reflexivity.
Qed.

(** X11. With one drift covariate ([drift2] omitted) on a well-formed
    table, both drift arrays are one-dimensional (lines 80-82): the drift
    column in the order of the rows, with one value per target position,
    and its selection at the observed rows, with one value per observation
    position. *)
Theorem single_drift_arrays df variable drift1 ex :
  df_wf df →
  extract df variable drift1 None = Ok ex →
  ∃ t c1,
    columns df !! variable = Some (FloatSeries t) ∧
    columns df !! drift1 = Some (FloatSeries c1) ∧
    external_drift_data ex = Array1 c1 ∧
    length c1 = length (g_lat ex) ∧
    external_drift_at_abortion ex = Array1 (mask_select (observed t) c1) ∧
    length (mask_select (observed t) c1) = length (lat ex).
Proof.
  intros Hwf H.
  apply extract_Ok in H
    as (t & geo & c1 & Ht & Hg & H1 & Hlat & _ & _ & Hglat & _ & Hd & Hda).
  pose proof (df_wf_len _ _ _ Hwf Hg) as Lg.
  pose proof (df_wf_len _ _ _ Hwf H1) as L1. simpl in Lg, L1.
  exists t, c1. rewrite Hlat, Hglat, !length_map.
  repeat split; try assumption; try congruence.
  apply mask_select_length. congruence.
Qed.

(** ** What a call reads of the table *)

Lemma result_bind_ext {A B} (r1 r2 : result A) (f g : A → result B) :
  r1 = r2 → (∀ a, f a = g a) → r1 ≫= f = r2 ≫= g.
Proof. intros -> H. destruct r2; simpl; auto. Qed.

Lemma getitem_ext df1 df2 c :
  columns df1 !! c = columns df2 !! c → getitem df1 c = getitem df2 c.
Proof. unfold getitem. intros ->. reflexivity. Qed.

Lemma getitem_select_ext mask df1 df2 c :
  columns df1 !! c = columns df2 !! c →
  getitem (df_select mask df1) c = getitem (df_select mask df2) c.
Proof. intros H. rewrite !getitem_select, H. reflexivity. Qed.

Lemma extract_ext df1 df2 variable drift1 drift2 :
  same_inputs df1 df2 variable drift1 drift2 →
  extract df1 variable drift1 drift2 = extract df2 variable drift1 drift2.
Proof.
  intros (_ & Hv & Hg & H1 & H2). unfold extract.
  apply result_bind_ext; [apply getitem_ext, Hv | intros target].
  apply result_bind_ext;
    [f_equal; apply getitem_select_ext, Hg | intros geo_i].
  apply result_bind_ext;
    [f_equal; apply getitem_select_ext, Hv | intros t_i].
  apply result_bind_ext; [f_equal; apply getitem_ext, Hg | intros geo].
  apply result_bind_ext; [f_equal; apply getitem_ext, H1 | intros c1].
  destruct drift2 as [d|].
  - specialize (H2 d eq_refl).
    apply result_bind_ext; [f_equal; apply getitem_ext, H2 | intros c2].
    apply result_bind_ext; [reflexivity | intros a].
    apply result_bind_ext;
      [f_equal; apply getitem_select_ext, H1 | intros c1i].
    apply result_bind_ext;
      [f_equal; apply getitem_select_ext, H2 | intros c2i].
    reflexivity.
  - apply result_bind_ext;
      [f_equal; apply getitem_select_ext, H1 | intros c1i].
    reflexivity.
Qed.

Lemma logs_only_run {A} (m : M A) w1 w2 :
  logs_only m →
  (m w1).2 = (m w2).2 ∧
  table (m w1).1 = table w1 ∧ table (m w2).1 = table w2.
Proof. intros (out & r & Hm). rewrite !Hm. simpl. auto. Qed.

Lemma assemble_result krig srf n w1 w2 :
  index_len (table w1) = index_len (table w2) →
  (assemble krig srf n w1).2 = (assemble krig srf n w2).2.
Proof.
  intros Hi. unfold assemble, mbind, M_bind, lift, get_df, put_df, setitem.
  destruct (mapM _ (range n)) as [flds|]; [|reflexivity].
  destruct (field_getitem (krige_store krig) "krig") as [kf|]; [|reflexivity].
  rewrite Hi. destruct (decide _); reflexivity.
Qed.

Lemma geokrig_result_of_extract variable n model drift1 drift2 w1 w2 :
  extract (table w1) variable drift1 drift2
    = extract (table w2) variable drift1 drift2 →
  index_len (table w1) = index_len (table w2) →
  (geokrig variable n model drift1 drift2 w1).2 =
  (geokrig variable n model drift1 drift2 w2).2.
Proof.
  intros Hex Hi. rewrite !geokrig_unfold, Hex.
  destruct (extract (table w2) variable drift1 drift2) as [ex|e];
    [|reflexivity].
  destruct (logs_only_run _ w1 w2 (fit_covariance_logs ex model))
    as (Hr & Ht1 & Ht2).
  destruct (fit_covariance ex model w1) as [w1' r1],
           (fit_covariance ex model w2) as [w2' r2].
  simpl in Hr, Ht1, Ht2. subst r2. destruct r1 as [cm|e]; [|reflexivity].
  destruct (krige ex cm) as [krig|e]; [|reflexivity].
  destruct (logs_only_run _ w1' w2' (simulate_logs ex krig n))
    as (Hr & Hs1 & Hs2).
  destruct (simulate ex krig n w1') as [w1'' r1],
           (simulate ex krig n w2') as [w2'' r2].
  simpl in Hr, Hs1, Hs2. subst r2. destruct r1 as [srf|e]; [|reflexivity].
  apply assemble_result. congruence.
Qed.

(** X12. The result of a call depends on the table only through its number
    of rows and the columns the call names (target, geometry and drift
    covariates): two tables that agree on these give the same result,
    matrix or exception, whatever other columns they hold and whatever the
    standard output and the random state are. *)
Theorem geokrig_reads_named_columns variable n model drift1 drift2 w1 w2 :
  same_inputs (table w1) (table w2) variable drift1 drift2 →
  (geokrig variable n model drift1 drift2 w1).2 =
  (geokrig variable n model drift1 drift2 w2).2.
Proof.
  intros Hs. apply geokrig_result_of_extract.
  - apply extract_ext, Hs.
  - destruct Hs as (Hi & _). exact Hi.
Qed.

(** X13. A successful call can be repeated: when neither the target nor a
    drift covariate is the column [cond_krig], the same call on the table
    as the first call left it succeeds with the same matrix and leaves the
    table as it is. *)
Theorem geokrig_again variable n model drift1 drift2 w w1 m :
  geokrig variable n model drift1 drift2 w = (w1, Ok m) →
  variable ≠ "cond_krig" →
  drift1 ≠ "cond_krig" →
  drift2 ≠ Some "cond_krig" →
  ∃ w2, geokrig variable n model drift1 drift2 w1 = (w2, Ok m) ∧
        table w2 = table w1.
Proof.
  intros H Hv H1 H2. pose proof H as H'.
  apply geokrig_Ok in H'
    as (ex & wa & cm & krig & flds & kf & Hex & Hfit & Hk & _ & Hkf & _ & Ht & _ & _).
  assert (Hs : same_inputs (table w1) (table w) variable drift1 drift2).
  { rewrite Ht. unfold same_inputs. simpl.
    split; [reflexivity|].
    split; [apply lookup_insert_ne; congruence|].
    split; [apply lookup_insert_ne; discriminate|].
    split; [apply lookup_insert_ne; congruence|].
    intros d ->. apply lookup_insert_ne. congruence. }
  pose proof (geokrig_result_of_extract variable n model drift1 drift2
                w1 w (extract_ext _ _ _ _ _ Hs) (proj1 Hs)) as Hr.
  rewrite H in Hr. simpl in Hr.
  destruct (geokrig variable n model drift1 drift2 w1) as [w2 r] eqn:H2nd.
  simpl in Hr. subst r. exists w2. split; [reflexivity|].
  apply geokrig_Ok in H2nd
    as (ex' & wb & cm' & krig' & flds' & kf' & Hex' & Hfit' & Hk' & _ & Hkf'
        & _ & Ht' & _ & _).
  rewrite (extract_ext _ _ _ _ _ Hs), Hex in Hex'. injection Hex' as <-.
  destruct (logs_only_run _ w w1 (fit_covariance_logs ex model)) as (Hc & _).
  rewrite Hfit, Hfit' in Hc. simpl in Hc. injection Hc as <-.
  assert (krig' = krig) as -> by congruence.
  assert (kf' = kf) as -> by congruence.
  rewrite Ht', Ht. simpl. rewrite insert_insert_eq. reflexivity.
Qed.

(** ** More iterations *)

Lemma subseeds_prefix r n n' :
  (n ≤ n')%nat → ∀ i s, subseeds r n !! i = Some s → subseeds r n' !! i = Some s.
Proof.
  revert r n'. induction n as [|n IH]; intros r [|n'] Hn [|i] s H;
    simpl in *; try discriminate; try lia.
  - exact H.
  - eapply IH; [lia | exact H].
Qed.

Lemma entry_transpose_inv rows k i v :
  entry (transpose (pd_DataFrame rows)) k i = Some v →
  ∃ f, rows !! i = Some f ∧ (k < width rows)%nat ∧ v = nth k f nan.
Proof.
  unfold entry, transpose, pd_DataFrame. simpl.
  rewrite list_lookup_fmap.
  destruct (seq 0 (width rows) !! k) as [j|] eqn:Hk; simpl; [|discriminate].
  apply lookup_seq in Hk as [-> Hk]. simpl.
  rewrite !list_lookup_fmap.
  destruct (rows !! i) as [f|]; simpl; [|discriminate].
  intros [= <-]. exists f. repeat split; [exact Hk|].
  rewrite (nth_lookup (map _ _)), list_lookup_fmap, lookup_seq_lt by exact Hk.
  reflexivity.
Qed.

Lemma width_le rows N :
  (∀ i (f : list float), rows !! i = Some f → (length f ≤ N)%nat) →
  (width rows ≤ N)%nat.
Proof.
  induction rows as [|r rows IH]; intros H; simpl; [lia|].
  pose proof (H 0 r eq_refl).
  assert (width rows ≤ N)%nat by (apply IH; intros i f Hi; apply (H (S i)), Hi).
  lia.
Qed.

(** X14. Asking for more iterations keeps the realizations already
    obtained: when a call with [n] iterations and a call with [n'] >= [n]
    iterations on the same world both succeed, every entry of the first
    matrix is the same entry of the second, and both calls leave the same
    table (the kriging column does not depend on the number of
    iterations). *)
Theorem geokrig_more_iterations variable n n' model drift1 drift2 w
    w1 m w1' m' :
  geokrig variable n model drift1 drift2 w = (w1, Ok m) →
  geokrig variable n' model drift1 drift2 w = (w1', Ok m') →
  (n ≤ n')%Z →
  table w1' = table w1 ∧
  ∀ k i v, entry m k i = Some v → entry m' k i = Some v.
Proof.
  intros H H' Hn.
  apply geokrig_Ok in H
    as (ex & wa & cm & krig & flds & kf & Hex & Hfit & Hk & Hflds & Hkf & _
        & Ht & _ & ->).
  apply geokrig_Ok in H'
    as (ex' & wb & cm' & krig' & flds' & kf' & Hex' & Hfit' & Hk' & Hflds'
        & Hkf' & _ & Ht' & _ & ->).
  assert (ex' = ex) as -> by congruence.
  assert (cm' = cm) as -> by congruence.
  assert (krig' = krig) as -> by congruence.
  assert (kf' = kf) as -> by congruence.
  split; [congruence|].
  assert (Hpre : ∀ i f, flds !! i = Some f → flds' !! i = Some f).
  { intros i f Hi.
    destruct (Forall2_lookup_r _ _ _ _ _ Hflds Hi) as (s & Hs & Hf).
    apply (subseeds_prefix _ _ (Z.to_nat n')) in Hs; [|lia].
    destruct (Forall2_lookup_l _ _ _ _ _ Hflds' Hs) as (f' & Hi' & Hf').
    congruence. }
  intros k i v He. apply entry_transpose_inv in He as (f & Hi & Hk1 & ->).
  apply entry_transpose; [auto|].
  assert (width flds ≤ width flds')%nat; [|lia].
  apply width_le. intros j g Hj. eapply width_ge, Hpre, Hj.
Qed.

(** ** A failing simulation *)

Lemma loop_body_Raise d v i w w' e pos :
  srf_pos (cond_srf v) = Some pos →
  loop_body d v i w = (w', Raise e) →
  w' = w ∧
  cond_field (krige_cond (srf_krige (cond_srf v))) pos d
    (next_seed (seed v)).1 = Raise e.
Proof.
  intros Hpos. unfold loop_body, mbind, M_bind, lift, emit, CondSRF_call.
  destruct (next_seed (seed v)) as [s r]. rewrite Hpos. simpl.
  destruct (cond_field _ pos d s) as [f|e']; simpl.
  - unfold field_getitem. rewrite lookup_insert_eq. discriminate.
  - intros [= <- <-]. auto.
Qed.

Lemma for_each_Raise d pos n : ∀ a v w w' e,
  srf_pos (cond_srf v) = Some pos →
  for_each (loop_body d) (seq a n) v w = (w', Raise e) →
  ∃ j s,
    (j < n)%nat ∧
    (∀ i s', (i < j)%nat → subseeds (seed v) n !! i = Some s' →
       ∃ f, cond_field (krige_cond (srf_krige (cond_srf v))) pos d s' = Ok f) ∧
    subseeds (seed v) n !! j = Some s ∧
    cond_field (krige_cond (srf_krige (cond_srf v))) pos d s = Raise e ∧
    w' = mkWorld (table w) (stdout w ++ iteration_lines (seq a j))%list
           (np_random w).
Proof.
  induction n as [|n IH]; intros a v w w' e Hpos H; simpl in H;
    [discriminate|].
  apply M_bind_Raise in H as [H|(v1 & w1 & E & H)].
  - apply (loop_body_Raise _ _ _ _ _ _ pos Hpos) in H as [-> H].
    exists 0, (next_seed (seed v)).1. repeat split; try assumption.
    + lia.
    + intros i s' Hi. lia.
    + unfold iteration_lines. simpl. rewrite app_nil_r, world_eta. reflexivity.
  - pose proof (loop_body_stdout _ _ _ _ _ _ E) as Hout.
    destruct (logs_only_frame _ _ _ _ (loop_body_logs _ _ _) E) as [Ht Hn].
    apply loop_body_Ok in E as (pos' & f & Hpos' & Hf & Hseed & Hk & Hp & _).
    assert (pos' = pos) as -> by congruence.
    apply (IH (S a) v1 w1 w' e) in H as (j & s & Hj & Hbefore & Hs & He & ->);
      [|congruence].
    rewrite Hk, Hseed in *.
    exists (S j), s. repeat split; try assumption.
    + lia.
    + intros [|i] s' Hi Hs'; simpl in Hs'.
      * injection Hs' as <-. eauto.
      * apply (Hbefore i); [lia | exact Hs'].
    + rewrite Ht, Hn, Hout, <- app_assoc.
      do 2 f_equal.
Qed.

(** X15. When the simulation stage fails, it fails at the first iteration
    [j] whose field the backend refuses, with the backend's own exception:
    the iterations before [j] were simulated with their sub-seeds and
    printed, iteration [j] and the later ones are not printed, and the
    table is as before. *)
Theorem simulate_first_failure ex krig n w w' e :
  simulate ex krig n w = (w', Raise e) →
  ∃ j s,
    (j < Z.to_nat n)%nat ∧
    (∀ i s', (i < j)%nat →
       subseeds (MasterRNG 20170519) (Z.to_nat n) !! i = Some s' →
       ∃ f, cond_field (krige_cond krig) (mkPos (g_lat ex) (g_lon ex))
              (external_drift_data ex) s' = Ok f) ∧
    subseeds (MasterRNG 20170519) (Z.to_nat n) !! j = Some s ∧
    cond_field (krige_cond krig) (mkPos (g_lat ex) (g_lon ex))
      (external_drift_data ex) s = Raise e ∧
    w' = mkWorld (table w) (stdout w ++ iteration_lines (seq 0 j))%list
           (np_random w).
Proof.
  unfold simulate, range. intros H.
  apply M_bind_Raise in H as [H|(v & w1 & _ & [=])].
  eapply for_each_Raise in H; [exact H | reflexivity].
Qed.

(** ** The table stays well formed *)

Lemma geokrig_Raise_table variable n model drift1 drift2 w w' e :
  geokrig variable n model drift1 drift2 w = (w', Raise e) → table w' = table w.
Proof.
  rewrite geokrig_unfold.
  destruct (extract _ _ _ _) as [ex|]; [|intros [= <- _]; reflexivity].
  destruct (fit_covariance ex model w) as [w1 [cm|]] eqn:Hfit;
    destruct (logs_only_frame _ _ _ _ (fit_covariance_logs _ _) Hfit)
      as [Ht1 _];
    [|intros [= <- _]; exact Ht1].
  destruct (krige ex cm) as [krig|]; [|intros [= <- _]; exact Ht1].
  destruct (simulate ex krig n w1) as [w2 [srf|]] eqn:Hsim;
    destruct (logs_only_frame _ _ _ _ (simulate_logs _ _ _) Hsim)
      as [Ht2 _];
    [|intros [= <- _]; congruence].
  intros H. apply assemble_Raise in H as [-> _]. congruence.
Qed.

(** X16. A call keeps the table well formed, whether it succeeds or fails:
    if every column has one entry per row before the call, so it is after
    it (the kriging column is written only when it has one value per
    row). *)
Theorem geokrig_keeps_df_wf variable n model drift1 drift2 w w' r :
  geokrig variable n model drift1 drift2 w = (w', r) →
  df_wf (table w) →
  df_wf (table w').
Proof.
  intros H Hwf. destruct r as [m|e].
  - apply geokrig_Ok in H
      as (ex & wa & cm & krig & flds & kf & _ & _ & _ & _ & _ & Hlen & -> & _).
    intros c s. simpl. intros Hc.
    apply lookup_insert_Some in Hc as [[_ <-]|[_ Hc]].
    + exact Hlen.
    + apply (Hwf c s Hc).
  - rewrite (geokrig_Raise_table _ _ _ _ _ _ _ _ H). exact Hwf.
Qed.

End MoreProperties.

(** * The further properties on the small tables *)

Section MoreRuns.
#[local] Existing Instance Toy.backend.

Lemma df_wf_counties_full : df_wf ToyVariants.counties_full.
Proof.
  change (map_Forall (λ _ s, series_len s = index_len ToyVariants.counties_full)
            (columns ToyVariants.counties_full)).
  apply (bool_decide_unpack _). vm_compute. exact I.
Qed.

(** [geokrig_missing_target] at [counties], for a column it has not. *)
Lemma geokrig_missing_target_witness :
  geokrig "nope" 2 "Matern" "dist" None (Toy.world Toy.counties)
  = (Toy.world Toy.counties, Raise (KeyError "nope")).
Proof.
  apply (geokrig_missing_target (backend := Toy.backend)).
  vm_compute. reflexivity.
Defined.

(** [geokrig_missing_geometry] at [counties_flat]. *)
Lemma geokrig_missing_geometry_witness :
  geokrig "rate" 2 "Matern" "dist" None (Toy.world ToyVariants.counties_flat)
  = (Toy.world ToyVariants.counties_flat, Raise (KeyError "geometry")).
Proof.
  eapply (geokrig_missing_geometry (backend := Toy.backend)).
  - vm_compute. reflexivity.
  - vm_compute. reflexivity.
Defined.

(** [geokrig_missing_drift] at [counties], for a second covariate it has
    not. *)
Lemma geokrig_missing_drift_witness :
  geokrig "rate" 2 "Matern" "dist" (Some "nope") (Toy.world Toy.counties)
  = (Toy.world Toy.counties, Raise (KeyError "nope")).
Proof.
  eapply (geokrig_missing_drift (backend := Toy.backend)).
  - vm_compute. reflexivity.
  - vm_compute. reflexivity.
  - right. exists [1; 8; 3]%float. repeat split; vm_compute; reflexivity.
Defined.

(** [geokrig_normalizer_error] at [counties_negative]. *)
Lemma geokrig_normalizer_error_witness :
  geokrig "rate" 2 "Matern" "dist" None (Toy.world Toy.counties_negative)
  = (Toy.world Toy.counties_negative, Raise NumericError).
Proof.
  eapply (geokrig_normalizer_error (backend := Toy.backend)).
  - vm_compute. reflexivity.
  - vm_compute. reflexivity.
Defined.

(** [geokrig_no_bins] at [counties], with the estimator that finds no
    bin. *)
Lemma geokrig_no_bins_witness :
  geokrig (backend := ToyVariants.no_bins) "rate" 2 "Matern" "dist" None
    (ToyVariants.world ToyVariants.no_bins Toy.counties)
  = (@mkWorld ToyVariants.no_bins Toy.counties
       [@print_bin_number ToyVariants.no_bins 0] 0,
     Raise ValueError).
Proof.
  eapply (geokrig_no_bins (backend := ToyVariants.no_bins)
            "rate" 2 "Matern" "dist" None
            (ToyVariants.world ToyVariants.no_bins Toy.counties)).
  - reflexivity.
  - reflexivity.
  - reflexivity.
Defined.

(** [geokrig_fit_error] at [counties], with the fit that fails. *)
Lemma geokrig_fit_error_witness :
  geokrig (backend := ToyVariants.failing_fit) "rate" 2 "Matern" "dist" None
    (ToyVariants.world ToyVariants.failing_fit Toy.counties)
  = (@mkWorld ToyVariants.failing_fit Toy.counties
       [@print_bin_number ToyVariants.failing_fit 3;
        @print_max_bin ToyVariants.failing_fit 3%float] 0,
     Raise FitError).
Proof.
  eapply (geokrig_fit_error (backend := ToyVariants.failing_fit)
            "rate" 2 "Matern" "dist" None
            (ToyVariants.world ToyVariants.failing_fit Toy.counties)
            _ _ [1; 2; 3]%float _ 3%float _ FitError).
  - reflexivity.
  - reflexivity.
  - reflexivity.
  - reflexivity.
  - reflexivity.
  - reflexivity.
Defined.

(** [geokrig_prints] at [counties], two iterations. *)
Lemma geokrig_prints_witness :
  ∃ l, length l = 4 ∧
       stdout (Toy.run "rate" 2 (Some "pov") Toy.counties).1
       = (l ++ [print_rule; print_iteration 0;
                print_rule; print_iteration 1])%list.
Proof.
  destruct (geokrig_prints (backend := Toy.backend)
              "rate" 2 "Matern" "dist" (Some "pov") (Toy.world Toy.counties)
              _ _ (run_pair _ _ _ run_counties))
    as (ex & nz & b & v & d & cm & _ & _ & _ & _ & Hs).
  exists (fit_lines b v d cm). split; [reflexivity | exact Hs].
Defined.

(** [observations_not_missing] at [counties]. *)
Lemma observations_not_missing_witness :
  int_data Toy.obs
  = filter (λ v, PrimFloat.is_nan v = false) [2; nan; 4]%float.
Proof.
  destruct (observations_not_missing
              Toy.counties "rate" "dist" (Some "pov") Toy.obs
              df_wf_counties extract_counties)
    as (t & Ht & Hint & _).
  vm_compute in Ht. injection Ht as <-. exact Hint.
Defined.

(** [extract_nothing_missing] at [counties_full]. *)
Lemma extract_nothing_missing_witness :
  ∃ ex, extract ToyVariants.counties_full "rate" "dist" None = Ok ex ∧
        lat ex = g_lat ex ∧ int_data ex = [2; 3; 4]%float.
Proof.
  destruct (extract ToyVariants.counties_full "rate" "dist" None)
    as [ex|e] eqn:Hex; [|vm_compute in Hex; discriminate Hex].
  exists ex. split; [reflexivity|].
  destruct (extract_nothing_missing
              ToyVariants.counties_full "rate" "dist" None ex
              [2; 3; 4]%float df_wf_counties_full Hex)
    as (H1 & _ & H3 & _).
  - vm_compute. reflexivity.
  - apply Forall_forall. repeat constructor.
  - split; assumption.
Defined.

(** [extract_all_missing] at [counties_empty]. *)
Lemma extract_all_missing_witness :
  ∃ ex, extract ToyVariants.counties_empty "rate" "dist" (Some "pov") = Ok ex ∧
        int_data ex = [] ∧
        external_drift_at_abortion ex = Array2 [[]; []].
Proof.
  destruct (extract ToyVariants.counties_empty "rate" "dist" (Some "pov"))
    as [ex|e] eqn:Hex; [|vm_compute in Hex; discriminate Hex].
  exists ex. split; [reflexivity|].
  destruct (extract_all_missing
              ToyVariants.counties_empty "rate" "dist" (Some "pov") ex
              [nan; nan; nan]%float Hex)
    as (_ & _ & H3 & H4).
  - vm_compute. reflexivity.
  - apply Forall_forall. repeat constructor.
  - split; assumption.
Defined.

Lemma extract_counties_single :
  extract Toy.counties "rate" "dist" None
  = Ok (mkExtracted [10; 12]%float [50; 52]%float [2; 4]%float
          [10; 11; 12]%float [50; 51; 52]%float
          (Array1 [1; 8; 3]%float) (Array1 [1; 3]%float)).
Proof. vm_compute. reflexivity. Qed.

(** [single_drift_arrays] at [counties] with the covariate [dist]. *)
Lemma single_drift_arrays_witness :
  ∃ c1, columns Toy.counties !! "dist" = Some (FloatSeries c1) ∧
        Array1 [1; 8; 3]%float = Array1 c1 ∧
        length c1 = 3.
Proof.
  destruct (single_drift_arrays Toy.counties "rate" "dist" _
              df_wf_counties extract_counties_single)
    as (t & c1 & _ & H1 & Hd & Hl & _).
  exists c1. repeat split; assumption.
Defined.

(** [geokrig_reads_named_columns] at [counties] and [counties_more]. *)
Lemma geokrig_reads_named_columns_witness :
  (Toy.run "rate" 2 (Some "pov") ToyVariants.counties_more).2
  = (Toy.run "rate" 2 (Some "pov") Toy.counties).2.
Proof.
  apply (geokrig_reads_named_columns (backend := Toy.backend)).
  repeat split; try (vm_compute; reflexivity).
  intros d [= <-]. vm_compute. reflexivity.
Defined.

(** [geokrig_again] after the call on [counties]. *)
Lemma geokrig_again_witness :
  ∃ w2,
    geokrig "rate" 2 "Matern" "dist" (Some "pov")
      (Toy.run "rate" 2 (Some "pov") Toy.counties).1
    = (w2, Ok (mkMatrix 3 2 [[2; 2]; [63973; 13256]; [4; 4]]%float)) ∧
    table w2 = table (Toy.run "rate" 2 (Some "pov") Toy.counties).1.
Proof.
  apply (geokrig_again (backend := Toy.backend)
           "rate" 2 "Matern" "dist" (Some "pov") (Toy.world Toy.counties)
           _ _ (run_pair _ _ _ run_counties));
    discriminate.
Defined.

Lemma run_counties_1 :
  (Toy.run "rate" 1 (Some "pov") Toy.counties).2 =
  Ok (mkMatrix 3 1 [[2]; [63973]; [4]]%float).
Proof. vm_compute. reflexivity. Qed.

(** [geokrig_more_iterations] at [counties], one and two iterations. *)
Lemma geokrig_more_iterations_witness :
  entry (mkMatrix 3 2 [[2; 2]; [63973; 13256]; [4; 4]]%float) 1 0
  = Some 63973%float.
Proof.
  apply (proj2 (geokrig_more_iterations (backend := Toy.backend)
                  "rate" 1 2 "Matern" "dist" (Some "pov")
                  (Toy.world Toy.counties) _ _ _ _
                  (run_pair _ _ _ run_counties_1)
                  (run_pair _ _ _ run_counties) ltac:(lia))).
  reflexivity.
Defined.

Lemma simulate_counties_failing :
  (simulate (backend := ToyVariants.failing_at 13248) Toy.obs
     (ToyVariants.krig_counties 13248) 3
     (ToyVariants.world (ToyVariants.failing_at 13248) Toy.counties)).2
  = Raise SingularSystemError.
Proof. reflexivity. Qed.

(** [simulate_first_failure] at [counties], three iterations, with the
    simulation that fails on the second sub-seed. *)
Lemma simulate_first_failure_witness :
  ∃ j s, (j < 3)%nat ∧
    subseeds (backend := ToyVariants.failing_at 13248)
      (MasterRNG 20170519) 3 !! j = Some s ∧
    stdout (simulate (backend := ToyVariants.failing_at 13248) Toy.obs
              (ToyVariants.krig_counties 13248) 3
              (ToyVariants.world (ToyVariants.failing_at 13248)
                 Toy.counties)).1
    = iteration_lines (backend := ToyVariants.failing_at 13248) (seq 0 j).
Proof.
  destruct (simulate_first_failure (backend := ToyVariants.failing_at 13248)
              Toy.obs (ToyVariants.krig_counties 13248) 3
              (ToyVariants.world (ToyVariants.failing_at 13248) Toy.counties)
              _ _ (run_pair _ _ _ simulate_counties_failing))
    as (j & s & Hj & _ & Hs & _ & Hw).
  exists j, s. repeat split; try assumption.
  rewrite Hw. reflexivity.
Defined.

(** [geokrig_keeps_df_wf] at the call on [counties]. *)
Lemma geokrig_keeps_df_wf_witness :
  df_wf (table (Toy.run "rate" 2 (Some "pov") Toy.counties).1).
Proof.
  exact (geokrig_keeps_df_wf (backend := Toy.backend)
           "rate" 2 "Matern" "dist" (Some "pov") (Toy.world Toy.counties)
           _ _ (run_pair _ _ _ run_counties) df_wf_counties).
Defined.

End MoreRuns.
